(** * The LED matrix pixel engine of sense_hat.py

    A shallow embedding of the LED matrix part of [SenseHat]
    (src/sense_hat/sense_hat.py): the RGB565 codec ([_pack_bin],
    [_unpack_bin]), the coordinate map ([_xy_rotated]), the frame
    operations ([set_pixels], [get_pixels], [set_pixel], [get_pixel],
    [set_rotation]) and the text renderer ([_trim_whitespace],
    [_get_char_pixels], [show_letter], [show_message]).

    Conventions of the model
    - Python integers are [Z]; a numpy [uint16] cell is a [Z] reduced with
      [u16] wherever the source stores into a [uint16] array.
    - A numpy array of pixels of shape (N, 3) is a [list pixel]; an array of
      shape (H, W, 3) is a [list (list pixel)] (rows of pixels).
    - The frame buffer device is a fixed store of bytes (128 on the real
      device).  Opening it never truncates it; a read past its end is short
      and a write that does not fit is refused with [IOError].
    - Methods run in the monad [M]: they take the object and the device
      ([SenseHat]) and return a result or a raised exception together with
      the new state.  A raised exception keeps the state reached so far, as
      attribute assignments made before a Python [raise] do. *)

From Stdlib Require Import ZArith QArith Lia.
From stdpp Require Import base list gmap strings.

Local Open Scope Z_scope.

(** ** Exceptions and results *)

Inductive exn : Set := ValueError | KeyError | IndexError | IOError.

Inductive res (A : Type) : Type :=
| Ok (a : A)
| Raise (e : exn).
Arguments Ok {A} a.
Arguments Raise {A} e.

(** ** Pixels and arrays *)

(** One [R, G, B] entry. *)
Abbreviation pixel := (Z * Z * Z)%type.

(** An array of shape (H, W, 3). *)
Abbreviation grid := (list (list pixel)).

Definition chan_ok (v : Z) : Prop := 0 <= v <= 255.
Definition pixel_ok (p : pixel) : Prop :=
  let '(r, g, b) := p in chan_ok r /\ chan_ok g /\ chan_ok b.

(** Storing a Python integer into a [uint16] cell. *)
Definition u16 (v : Z) : Z := v mod 65536.

Definition u16_pixel (p : pixel) : pixel :=
  let '(r, g, b) := p in (u16 r, u16 g, u16 b).

(** ** PixelCodec *)

(** The three [bits16 += ...] lines of [_pack_bin] for one cell. *)
Definition pack16 (p : pixel) : Z :=
  let '(r, g, b) := p in
  let bits16 := 0 in
  let bits16 := u16 (bits16 + Z.shiftl (Z.land r 0xF8) 8) in
  let bits16 := u16 (bits16 + Z.shiftl (Z.land g 0xFC) 3) in
  let bits16 := u16 (bits16 + Z.shiftr b 3) in
  bits16.

(** [ndarray.tostring] of one [uint16] on the little-endian host. *)
Definition bytes_of_u16 (w : Z) : list Z := [w mod 256; w / 256].

(** [_pack_bin]: an (H, W, 3) array to the flattened byte string. *)
Definition _pack_bin (pixel_list : grid) : list Z :=
  mjoin (map (fun row => mjoin (map (fun p => bytes_of_u16 (pack16 p)) row))
             pixel_list).

(** [np.fromstring(packed, dtype=np.uint16)]: a byte string whose length is
    odd is rejected. *)
Fixpoint fromstring_u16 (packed : list Z) : res (list Z) :=
  match packed with
  | [] => Ok []
  | lo :: hi :: rest =>
      match fromstring_u16 rest with
      | Ok ws => Ok ((lo + 256 * hi) :: ws)
      | Raise e => Raise e
      end
  | [_] => Raise ValueError
  end.

(** The three column assignments of [_unpack_bin] for one cell. *)
Definition unpack16 (w : Z) : pixel :=
  (u16 (Z.shiftr (Z.land w 0xF800) 8),
   u16 (Z.shiftr (Z.land w 0x07E0) 3),
   u16 (Z.shiftl (Z.land w 0x001F) 3)).

(** [_unpack_bin]: a byte string to an (N, 3) array. *)
Definition _unpack_bin (packed : list Z) : res (list pixel) :=
  match fromstring_u16 packed with
  | Ok bits16 => Ok (map unpack16 bits16)
  | Raise e => Raise e
  end.

(** Codec of a single pixel, as [set_pixel] and [get_pixel] use it. *)
Definition encode (p : pixel) : list Z := _pack_bin [[p]].
Definition decode (packed : list Z) : res pixel :=
  match _unpack_bin packed with
  | Ok (p :: _) => Ok p
  | Ok [] => Raise IndexError
  | Raise e => Raise e
  end.

(** What one channel becomes after a trip through the device. *)
Definition quantize (p : pixel) : pixel :=
  let '(r, g, b) := p in (Z.land r 0xF8, Z.land g 0xFC, Z.land b 0xF8).

(** ** The driver object and the device *)

Inductive event : Type :=
| EvWrite (pos : Z) (data : list Z)
| EvSleep (secs : Q).

Record SenseHat : Type := mkSenseHat {
  fb_mem : list Z;                  (* bytes of the device self._fb_device *)
  _rotation : Z;                    (* self._rotation *)
  _text_dict : gmap string grid;    (* self._text_dict *)
  trace : list event                (* device writes and sleeps, oldest first *)
}.

Definition with_rotation (r : Z) (self : SenseHat) : SenseHat :=
  mkSenseHat (fb_mem self) r (_text_dict self) (trace self).

Definition M (A : Type) : Type := SenseHat -> res A * SenseHat.

Definition ret {A} (a : A) : M A := fun self => (Ok a, self).
Definition raise {A} (e : exn) : M A := fun self => (Raise e, self).
Definition bind {A B} (m : M A) (f : A -> M B) : M B :=
  fun self =>
    match m self with
    | (Ok a, self') => f a self'
    | (Raise e, self') => (Raise e, self')
    end.
Definition lift {A} (r : res A) : M A := fun self => (r, self).

#[global] Instance M_ret : MRet M := @ret.
#[global] Instance M_bind : MBind M := fun A B f m => bind m f.

Definition get_rotation : M Z := fun self => (Ok (_rotation self), self).
Definition put_rotation (r : Z) : M unit :=
  fun self => (Ok tt, with_rotation r self).

(** [f.seek(pos); f.write(data)] on the device. *)
Definition fb_write (pos : Z) (data : list Z) : M unit :=
  fun self =>
    if (0 <=? pos) && (pos + Z.of_nat (length data) <=? Z.of_nat (length (fb_mem self)))
    then (Ok tt,
          mkSenseHat (list_inserts (Z.to_nat pos) data (fb_mem self))
                     (_rotation self) (_text_dict self)
                     (trace self ++ [EvWrite pos data]))
    else (Raise IOError, self).

(** [f.seek(pos); f.read(n)] on the device. *)
Definition fb_read (pos : Z) (n : nat) : M (list Z) :=
  fun self =>
    if 0 <=? pos
    then (Ok (take n (drop (Z.to_nat pos) (fb_mem self))), self)
    else (Raise IOError, self).

(** [time.sleep(secs)]. *)
Definition sleep (secs : Q) : M unit :=
  fun self =>
    (Ok tt,
     mkSenseHat (fb_mem self) (_rotation self) (_text_dict self)
                (trace self ++ [EvSleep secs])).

(** ** RotationMap *)

Definition _xy_rotated (x y : Z) : M Z :=
  r ← get_rotation;
  if r =? 0 then ret (x + 8 * y)
  else if r =? 90 then ret (8 + 8 * x - y)
  else if r =? 180 then ret (72 - x - 8 * y)
  else if r =? 270 then ret (64 - 8 * x + y)
  else raise ValueError.

(** ** Array helpers (numpy) *)

(** [np.zeros((h, w, 3), np.uint16)]. *)
Definition zeros (h w : nat) : grid := replicate h (replicate w (0, 0, 0)).

(** [a.reshape(h, w, 3)] of an (h * w, 3) array, and back. *)
Fixpoint rows_of (w h : nat) (a : list pixel) : grid :=
  match h with
  | O => []
  | S h' => take w a :: rows_of w h' (drop w a)
  end.
Definition flat (m : grid) : list pixel := mjoin m.

(** [np.flip(m, 1)] and [np.flip(m, 0)]. *)
Definition fliplr (m : grid) : grid := map reverse m.
Definition flipud (m : grid) : grid := reverse m.

(** [np.transpose(m, (1, 0, 2))] of an array with [w] columns. *)
Fixpoint transpose_to (w : nat) (m : grid) : grid :=
  match m with
  | [] => replicate w []
  | row :: rest => zip_with cons row (transpose_to w rest)
  end.
Definition transpose (m : grid) : grid :=
  match m with
  | [] => []
  | row :: _ => transpose_to (length row) m
  end.

(** [np.rot90(m, k)], by the cases of numpy's definition. *)
Definition rot90 (m : grid) (k : Z) : grid :=
  let k := k mod 4 in
  if k =? 0 then m
  else if k =? 2 then fliplr (flipud m)
  else if k =? 1 then transpose (fliplr m)
  else fliplr (transpose m).

(** [a.max()] and [a.min()] over every channel of a non-empty array. *)
Definition channels (a : list pixel) : list Z :=
  mjoin (map (fun p : pixel => let '(r, g, b) := p in [r; g; b]) a).
Definition arr_max (a : list pixel) : Z :=
  match channels a with
  | [] => 0
  | v :: vs => foldl Z.max v vs
  end.
Definition arr_min (a : list pixel) : Z :=
  match channels a with
  | [] => 0
  | v :: vs => foldl Z.min v vs
  end.

(** [a.sum()]. *)
Definition row_sum (row : list pixel) : Z :=
  foldr (fun v acc => v + acc) 0 (channels row).
Definition arr_sum (m : grid) : Z :=
  foldr (fun row acc => row_sum row + acc) 0 m.

(** ** MatrixSurface *)

Definition set_pixels (pixel_list : list pixel) : M unit :=
  (* np.array(pixel_list, dtype=np.uint16) / astype(np.uint16) *)
  let pixel_list := map u16_pixel pixel_list in
  (* pixel_list.shape = (8, 8, 3) *)
  if negb (length pixel_list =? 64)%nat then raise ValueError
  else
    let pixel_list8 := rows_of 8 8 pixel_list in
    if (255 <? arr_max pixel_list) || (arr_min pixel_list <? 0)
    then raise ValueError
    else
      r ← get_rotation;
      let pixel_list8 :=
        if 0 <? r then rot90 pixel_list8 (r / 90) else pixel_list8 in
      fb_write 0 (_pack_bin pixel_list8).

Definition get_pixels : M (list pixel) :=
  packed ← fb_read 0 128;
  pixel_list ← lift (_unpack_bin packed);
  r ← get_rotation;
  if negb (length pixel_list =? 64)%nat then raise ValueError
  else if 0 <? r
  then ret (flat (rot90 (rows_of 8 8 pixel_list) ((360 - r) / 90)))
  else ret pixel_list.

Definition set_rotation (r : Z) (redraw : bool) : M unit :=
  if bool_decide (r ∈ [0; 90; 180; 270])
  then
    pixel_list ← (if redraw then get_pixels else ret []);
    put_rotation r;;
    if redraw then set_pixels pixel_list else ret tt
  else raise ValueError.

(** [set_pixel(x, y, pixel)]; [set_pixel(x, y, r, g, b)] is the same call
    with [pixel = [r; g; b]]. *)
Definition set_pixel (x y : Z) (pixel : list Z) : M unit :=
  match pixel with
  | [r; g; b] =>
      if (7 <? x) || (x <? 0) then raise ValueError
      else if (7 <? y) || (y <? 0) then raise ValueError
      else if existsb (fun element => (255 <? element) || (element <? 0)) pixel
      then raise ValueError
      else
        off ← _xy_rotated x y;
        fb_write (off * 2) (_pack_bin [[(r, g, b)]])
  | _ => raise ValueError
  end.

Definition get_pixel (x y : Z) : M pixel :=
  if (7 <? x) || (x <? 0) then raise ValueError
  else if (7 <? y) || (y <? 0) then raise ValueError
  else
    off ← _xy_rotated x y;
    packed ← fb_read (off * 2) 2;
    pix ← lift (_unpack_bin packed);
    match pix with
    | p :: _ => ret p
    | [] => raise IndexError
    end.

(** ** GlyphStore *)

(** A [for i in ...: if test(i): break] loop; the result is the value of
    [i] once the loop is left ([i0] if the range is empty). *)
Fixpoint for_break (test : nat -> bool) (range : list nat) (i0 : nat) : nat :=
  match range with
  | [] => i0
  | i :: rest => if test i then i else for_break test rest i
  end.

(** [char[i]] for a glyph.  The values of [_text_dict] are (5, 8, 3)
    arrays ([reshape(-1, 5, 8, 3)] in [_load_text_assets]), so [i] in 0..4
    is always in range; the total lookup never takes its default there. *)
Definition glyph_row (char : grid) (i : nat) : list pixel := char !!! i.

Definition _trim_whitespace (char : grid) : grid :=
  if 0 <? arr_sum char
  then
    let test := fun i => 0 <? row_sum (glyph_row char i) in
    let slice_from := for_break test [0; 1; 2; 3; 4]%nat 0%nat in
    let slice_to := S (for_break test [4; 3; 2; 1; 0]%nat 0%nat) in
    take (slice_to - slice_from) (drop slice_from char)
  else char.

Definition get_text_dict : M (gmap string grid) :=
  fun self => (Ok (_text_dict self), self).

(** [d[k]] of a Python dict. *)
Definition dict_get (d : gmap string grid) (k : string) : M grid :=
  match d !! k with
  | Some v => ret v
  | None => raise KeyError
  end.

Definition _get_char_pixels (s : string) : M grid :=
  d ← get_text_dict;
  if (String.length s =? 1)%nat && bool_decide (is_Some (d !! s))
  then dict_get d s
  else dict_get d "?"%string.

(** ** TextRenderer *)

(** The characters of a Python string, each as a string of length one. *)
Fixpoint chars_of (s : string) : list string :=
  match s with
  | EmptyString => []
  | String c rest => String c EmptyString :: chars_of rest
  end.

(** [np.where(pixels[:,:] == np.array(v))], its first two index arrays:
    one (row, column) pair for every channel that equals [v]'s. *)
Definition where_eq (pixels : grid) (v : pixel) : list (nat * nat) :=
  mjoin (imap (fun i row =>
    mjoin (imap (fun j (p : pixel) =>
      let '(r, g, b) := p in
      let '(vr, vg, vb) := v in
      (if r =? vr then [(i, j)] else []) ++
      (if g =? vg then [(i, j)] else []) ++
      (if b =? vb then [(i, j)] else [])) row)) pixels).

(** [pixels[:,:] = colour] on a [uint16] array. *)
Definition fill (pixels : grid) (colour : pixel) : grid :=
  map (map (fun _ => u16_pixel colour)) pixels.

(** [pixels[f_px[0], f_px[1]] = colour] on a [uint16] array. *)
Definition assign_at (pixels : grid) (f_px : list (nat * nat)) (colour : pixel)
  : grid :=
  foldl (fun px ij => alter (fun row => <[ij.2 := u16_pixel colour]> row) ij.1 px)
        pixels f_px.

Definition recolour (pixels : grid) (text_colour back_colour : pixel) : grid :=
  let f_px := where_eq pixels (255, 255, 255) in
  let pixels := fill pixels back_colour in
  assign_at pixels f_px text_colour.

(** The rotation adjustment both text methods start with. *)
Definition rotate_left_90 : M unit :=
  r ← get_rotation;
  put_rotation (r - 90);;
  r ← get_rotation;
  if r <? 0 then put_rotation 270 else ret tt.

(** The loop that appends each character to the scroll strip. *)
Fixpoint append_chars (text : list string) (letter_padding scroll_pixels : grid)
  : M grid :=
  match text with
  | [] => ret scroll_pixels
  | s :: rest =>
      char ← _get_char_pixels s;
      scroll_pixels ← ret (scroll_pixels ++ _trim_whitespace char);
      scroll_pixels ← ret (scroll_pixels ++ letter_padding);
      append_chars rest letter_padding scroll_pixels
  end.

(** The loop that shows the windows [scroll_pixels[i : i+8]]. *)
Fixpoint scroll_loop (range : list nat) (scroll_pixels : grid) (scroll_speed : Q)
  : M unit :=
  match range with
  | [] => ret tt
  | i :: rest =>
      set_pixels (flat (take 8 (drop i scroll_pixels)));;
      sleep scroll_speed;;
      scroll_loop rest scroll_pixels scroll_speed
  end.

Definition show_message (text_string : string) (scroll_speed : Q)
    (text_colour back_colour : pixel) : M unit :=
  previous_rotation ← get_rotation;
  rotate_left_90;;
  string_padding ← ret (zeros 8 8);
  letter_padding ← ret (zeros 1 8);
  scroll_pixels ← append_chars (chars_of text_string) letter_padding string_padding;
  scroll_pixels ← ret (scroll_pixels ++ string_padding);
  scroll_pixels ← ret (recolour scroll_pixels text_colour back_colour);
  scroll_length ← ret (length scroll_pixels);
  scroll_loop (seq 0 (scroll_length - 8)) scroll_pixels scroll_speed;;
  put_rotation previous_rotation.

Definition show_letter (s : string) (text_colour back_colour : pixel) : M unit :=
  if (1 <? String.length s)%nat then raise ValueError
  else
    previous_rotation ← get_rotation;
    rotate_left_90;;
    pixel_list ← ret (zeros 8 8);
    char ← _get_char_pixels s;
    (* pixel_list[1:6] = char, char being a (5, 8, 3) array *)
    pixel_list ← ret (take 1 pixel_list ++ char ++ drop 6 pixel_list);
    pixel_list ← ret (recolour pixel_list text_colour back_colour);
    set_pixels (flat pixel_list);;
    put_rotation previous_rotation.

(** ** MatrixSurface: flips and clear *)

Definition flip_h (redraw : bool) : M (list pixel) :=
  pixel_list ← get_pixels;
  pixel_list ← ret (rows_of 8 8 pixel_list);
  flipped ← ret (fliplr pixel_list);
  (if redraw then set_pixels (flat flipped) else ret tt);;
  ret (flat flipped).

Definition flip_v (redraw : bool) : M (list pixel) :=
  pixel_list ← get_pixels;
  pixel_list ← ret (rows_of 8 8 pixel_list);
  flipped ← ret (flipud pixel_list);
  (if redraw then set_pixels (flat flipped) else ret tt);;
  ret (flat flipped).

(** The positional arguments of [clear]: integers, as in [clear()] and
    [clear(r, g, b)], or one sequence of integers, as in [clear(colour)]. *)
Inductive clear_args : Type :=
| ArgInts (args : list Z)
| ArgColour (colour : list Z).

(** [set_pixels([colour] * 64)] for a sequence [colour]: 64 entries of
    three values are 64 pixels; with any other number of values the array
    has not 192 elements and [set_pixels] cannot give it the shape
    (8, 8, 3). *)
Definition set_pixels_of_colour (colour : list Z) : M unit :=
  match colour with
  | [r; g; b] => set_pixels (replicate 64 (r, g, b))
  | _ => raise ValueError
  end.

Definition clear (args : clear_args) : M unit :=
  let black := [0; 0; 0] in
  match args with
  | ArgInts [] => set_pixels_of_colour black
  | ArgColour colour => set_pixels_of_colour colour
  | ArgInts [_] =>
      (* colour is one integer: [colour] * 64 is a flat array of 64 values *)
      raise ValueError
  | ArgInts [r; g; b] => set_pixels_of_colour [r; g; b]
  | ArgInts _ => raise ValueError
  end.

(** ** GlyphStore: loading *)

Definition put_text_dict (d : gmap string grid) : M unit :=
  fun self => (Ok tt, mkSenseHat (fb_mem self) (_rotation self) d (trace self)).

(** The first [n] blocks of 40 pixels, each as a (5, 8, 3) array. *)
Fixpoint glyph_blocks (n : nat) (text_pixels : list pixel) : list grid :=
  match n with
  | O => []
  | S n' => rows_of 8 5 (take 40 text_pixels)
            :: glyph_blocks n' (drop 40 text_pixels)
  end.

(** [text_pixels.reshape(-1, 5, 8, 3)] of an (N, 3) array. *)
Definition reshape_glyphs (text_pixels : list pixel) : res (list grid) :=
  if (length text_pixels mod 40 =? 0)%nat
  then Ok (glyph_blocks (length text_pixels / 40) text_pixels)
  else Raise ValueError.

(** The loop [for i, s in enumerate(loaded_text)], from index [i] on. *)
Fixpoint load_loop (i : nat) (loaded_text : list string) (text_pixels : list grid)
  : M unit :=
  match loaded_text with
  | [] => ret tt
  | s :: rest =>
      match text_pixels !! i with
      | Some char =>
          d ← get_text_dict;
          put_text_dict (<[s := char]> d);;
          load_loop (S i) rest text_pixels
      | None => raise IndexError
      end
  end.

(** [_load_text_assets], given what [load_image] returned for the image
    file and what was read from the text file. *)
Definition _load_text_assets (text_pixels : list pixel) (loaded_text : string)
  : M unit :=
  text_pixels ← lift (reshape_glyphs text_pixels);
  put_text_dict ∅;;
  load_loop 0 (chars_of loaded_text) text_pixels.

(** * Vocabulary of the properties *)

(** [P] holds on the [fuel] integers from [z] on. *)
Fixpoint all_from (fuel : nat) (z : Z) (P : Z -> bool) : bool :=
  match fuel with
  | O => true
  | S fuel' => P z && all_from fuel' (z + 1) P
  end.

(** Equality test on pixels. *)
Definition pixel_eqb (p q : pixel) : bool :=
  let '(r, g, b) := p in
  let '(r', g', b') := q in
  (r =? r') && (g =? g') && (b =? b').

(** The rotations [set_rotation] accepts, and the coordinates of the
    matrix. *)
Definition rotation_ok (r : Z) : Prop := r = 0 \/ r = 90 \/ r = 180 \/ r = 270.

Definition coord_ok (x y : Z) : Prop := 0 <= x <= 7 /\ 0 <= y <= 7.

(** The closed form of [_xy_rotated] at a supported rotation. *)
Definition offset_formula (r x y : Z) : Z :=
  if r =? 0 then x + 8 * y
  else if r =? 90 then 8 + 8 * x - y
  else if r =? 180 then 72 - x - 8 * y
  else 64 - 8 * x + y.

(** The least offset [_xy_rotated] reaches at rotation [r]. *)
Definition image_start (r : Z) : Z :=
  if r =? 0 then 0 else if r =? 90 then 1 else if r =? 180 then 9 else 8.

(** A glyph of the store: a (5, 8, 3) array of 8-bit channels. *)
Definition glyph_ok (char : grid) : Prop :=
  length char = 5%nat
  /\ Forall (fun row => length row = 8%nat /\ Forall pixel_ok row) char.

(** A row whose channel sum is zero. *)
Definition black_row (row : list pixel) : Prop := row_sum row = 0.

(** An (8, 8, 3) array. *)
Definition shape8 (m : grid) : Prop :=
  length m = 8%nat /\ Forall (fun row => length row = 8%nat) m.

(** The range test of [set_pixels] passes exactly on arrays whose channels
    are all in [0,255]. *)
Definition range_test (a : list pixel) : bool :=
  (255 <? arr_max a) || (arr_min a <? 0).

(** The array [set_pixels] and [get_pixels] turn: only a positive rotation
    turns it. *)
Definition turned (r k : Z) (m : grid) : grid :=
  if 0 <? r then rot90 m k else m.

(** A pixel as the device holds it: quantizing it again changes nothing. *)
Definition on_device (p : pixel) : Prop := pixel_ok p /\ quantize p = p.

(** The pixel list [get_pixels] returns for device bytes [mem] at
    rotation [r]. *)
Definition shown (r : Z) (px : list pixel) : list pixel :=
  flat (turned r ((360 - r) / 90) (rows_of 8 8 px)).

(** The pixels [np.where] reports: some channel equals 255. *)
Definition drawn (p : pixel) : bool :=
  let '(r, g, b) := p in (r =? 255) || (g =? 255) || (b =? 255).

(** [m[i][j]], if the entry exists. *)
Definition at2 (m : grid) (i j : nat) : option pixel :=
  match m !! i with
  | Some row => row !! j
  | None => None
  end.

(** An entry overwritten with colour [c] in a [uint16] array. *)
Definition painted (c : pixel) (o : option pixel) : option pixel :=
  match o with
  | Some _ => Some (u16_pixel c)
  | None => None
  end.

(** A quarter turn to the left of the rotation field. *)
Definition left_90 (r : Z) : Z := if r - 90 <? 0 then 270 else r - 90.

(** The glyph [_get_char_pixels] picks, if the dictionary has one. *)
Definition char_pixels (d : gmap string grid) (s : string) : option grid :=
  if (String.length s =? 1)%nat && bool_decide (is_Some (d !! s))
  then d !! s
  else d !! "?"%string.

Definition glyph_of (d : gmap string grid) (s : string) : grid :=
  default [] (char_pixels d s).

(** The scroll strip in the words of the specification: a blank 8 x 8
    block, each character's trimmed glyph followed by one blank row of
    8 pixels, and a trailing blank 8 x 8 block. *)
Definition scroll_strip (d : gmap string grid) (text_string : string) : grid :=
  zeros 8 8
  ++ mjoin (map (fun s => _trim_whitespace (glyph_of d s) ++ zeros 1 8)
                (chars_of text_string))
  ++ zeros 8 8.

(** The frame [show_letter] builds before recolouring. *)
Definition letter_frame (char : grid) : grid :=
  take 1 (zeros 8 8) ++ char ++ drop 6 (zeros 8 8).

(** The device bytes for an array shown at rotation [r]. *)
Definition frame_bytes (r : Z) (m : grid) : list Z :=
  _pack_bin (turned r (r / 90) m).

(** The store of glyphs: the fallback exists and every glyph is 5 x 8. *)
Definition dict_ok (d : gmap string grid) : Prop :=
  is_Some (d !! "?"%string) /\ forall k g, d !! k = Some g -> glyph_ok g.

(** An (N, 8, 3) array. *)
Definition rows8 (m : grid) : Prop := Forall (fun row => length row = 8%nat) m.

(** The two events of one step of the scroll loop. *)
Definition scroll_events (r : Z) (scroll_pixels : grid) (speed : Q) (i : nat)
  : list event :=
  [EvWrite 0 (frame_bytes r (take 8 (drop i scroll_pixels))); EvSleep speed].

(** What [show_message] does between the rotation adjustment and the
    final assignment of the saved rotation. *)
Definition message_body (text_string : string) (scroll_speed : Q)
    (text_colour back_colour : pixel) : M unit :=
  string_padding ← ret (zeros 8 8);
  letter_padding ← ret (zeros 1 8);
  scroll_pixels ← append_chars (chars_of text_string) letter_padding string_padding;
  scroll_pixels ← ret (scroll_pixels ++ string_padding);
  scroll_pixels ← ret (recolour scroll_pixels text_colour back_colour);
  scroll_length ← ret (length scroll_pixels);
  scroll_loop (seq 0 (scroll_length - 8)) scroll_pixels scroll_speed.

(** The same for [show_letter]. *)
Definition letter_body (s : string) (text_colour back_colour : pixel) : M unit :=
  pixel_list ← ret (zeros 8 8);
  char ← _get_char_pixels s;
  pixel_list ← ret (take 1 pixel_list ++ char ++ drop 6 pixel_list);
  pixel_list ← ret (recolour pixel_list text_colour back_colour);
  set_pixels (flat pixel_list).

(** Running [body] with the rotation turned left; the saved rotation is
    assigned back only when [body] returns. *)
Definition scoped (body : M unit) : M unit :=
  fun self =>
    match body (with_rotation (left_90 (_rotation self)) self) with
    | (Ok _, self') => (Ok tt, with_rotation (_rotation self) self')
    | (Raise e, self') => (Raise e, self')
    end.

(** Sample data: a black row, white, two glyphs and two drivers with a
    one-glyph store, a blank 128-byte device and rotation 0. *)
Definition blank_row : list pixel := replicate 8 (0, 0, 0).

Definition white : pixel := (255, 255, 255).

(** A glyph with two inked rows between blank ones. *)
Definition sample_glyph : grid :=
  [ blank_row;
    [(0,0,0); white; white; (0,0,0); (0,0,0); (0,0,0); (0,0,0); (0,0,0)];
    [(0,0,0); (0,0,0); white; white; white; (0,0,0); (0,0,0); (0,0,0)];
    blank_row;
    blank_row ].

(** The same glyph with one pixel that is red, not white. *)
Definition tinted_glyph : grid :=
  [ blank_row;
    [(0,0,0); white; white; (255,0,0); (0,0,0); (0,0,0); (0,0,0); (0,0,0)];
    [(0,0,0); (0,0,0); white; white; white; (0,0,0); (0,0,0); (0,0,0)];
    blank_row;
    blank_row ].

Definition sample_hat : SenseHat :=
  mkSenseHat (replicate 128 0) 0 {[ "?"%string := sample_glyph ]} [].

Definition tinted_hat : SenseHat :=
  mkSenseHat (replicate 128 0) 0 {[ "?"%string := tinted_glyph ]} [].

(** The driver after [set_pixels] has shown the (8, 8, 3) array [m]. *)
Definition hat_showing (self : SenseHat) (m : grid) : SenseHat :=
  mkSenseHat (frame_bytes (_rotation self) m) (_rotation self) (_text_dict self)
             (trace self ++ [EvWrite 0 (frame_bytes (_rotation self) m)]).

(** The (8, 8, 3) array filled with one colour. *)
Definition uniform (c : pixel) : grid := replicate 8 (replicate 8 c).

(** The dictionary the loading loop builds from [d]: character number [k]
    of the text is bound to block number [i + k]. *)
Fixpoint loaded_dict (i : nat) (loaded_text : list string) (blocks : list grid)
    (d : gmap string grid) : gmap string grid :=
  match loaded_text with
  | [] => d
  | s :: rest =>
      match blocks !! i with
      | Some char => loaded_dict (S i) rest blocks (<[s := char]> d)
      | None => d
      end
  end.

(** The driver with another glyph dictionary. *)
Definition with_text_dict (d : gmap string grid) (self : SenseHat) : SenseHat :=
  mkSenseHat (fb_mem self) (_rotation self) d (trace self).


(** The device cell in which [set_pixels] stores the pixel of column [x]
    and row [y] at a supported rotation [r]. *)
Definition bulk_offset (r : Z) (x y : nat) : nat :=
  if r =? 0 then 8 * y + x
  else if r =? 90 then 8 * (7 - x) + y
  else if r =? 180 then 8 * (7 - y) + (7 - x)
  else 8 * x + (7 - y).

(** * Properties *)

(** ** Checking a decidable property on an interval of integers *)

Lemma all_from_spec fuel : forall z P,
  all_from fuel z P = true ->
  forall k, z <= k < z + Z.of_nat fuel -> P k = true.
Proof.
  induction fuel as [|fuel IH]; intros z P Hall k Hk; [lia|].
  simpl in Hall. apply andb_prop in Hall as [Hz Hrest].
  destruct (Z.eq_dec k z) as [->|Hne]; [exact Hz|].
  apply (IH (z + 1) P Hrest). lia.
Qed.

(** ** PixelCodec *)

Lemma land_F8 v : chan_ok v -> Z.land v 0xF8 = 8 * (v / 8).
Proof.
  intros Hv.
  apply Z.eqb_eq.
  apply (all_from_spec 256 0 (fun v => Z.land v 0xF8 =? 8 * (v / 8)));
    [vm_compute; reflexivity | unfold chan_ok in Hv; lia].
Qed.

Lemma land_FC v : chan_ok v -> Z.land v 0xFC = 4 * (v / 4).
Proof.
  intros Hv.
  apply Z.eqb_eq.
  apply (all_from_spec 256 0 (fun v => Z.land v 0xFC =? 4 * (v / 4)));
    [vm_compute; reflexivity | unfold chan_ok in Hv; lia].
Qed.

Lemma pixel_eqb_eq p q : pixel_eqb p q = true -> p = q.
Proof.
  destruct p as [[r g] b], q as [[r' g'] b']. simpl.
  intros H. apply andb_prop in H as [H Hb]. apply andb_prop in H as [Hr Hg].
  apply Z.eqb_eq in Hr, Hg, Hb. congruence.
Qed.

(** Every 16-bit cell decodes to its three bit fields, zero-filled. *)
Lemma unpack16_fields w :
  0 <= w < 65536 ->
  unpack16 w = (8 * (w / 2048), 4 * ((w / 32) mod 64), 8 * (w mod 32)).
Proof.
  intros Hw. apply pixel_eqb_eq.
  apply (all_from_spec (Z.to_nat 65536) 0
           (fun w => pixel_eqb (unpack16 w)
                       (8 * (w / 2048), 4 * ((w / 32) mod 64), 8 * (w mod 32))));
    [vm_compute; reflexivity | lia].
Qed.

Lemma pack16_fields r g b :
  pixel_ok (r, g, b) ->
  pack16 (r, g, b) = 2048 * (r / 8) + 32 * (g / 4) + b / 8.
Proof.
  intros (Hr & Hg & Hb). unfold pack16.
  rewrite (land_F8 r Hr), (land_FC g Hg).
  rewrite !Z.shiftl_mul_pow2, Z.shiftr_div_pow2 by lia.
  change (2 ^ 8) with 256. change (2 ^ 3) with 8.
  unfold chan_ok in *. unfold u16.
  assert (0 <= r / 8 < 32) by (split; [apply Z.div_pos | apply Z.div_lt_upper_bound]; lia).
  assert (0 <= g / 4 < 64) by (split; [apply Z.div_pos | apply Z.div_lt_upper_bound]; lia).
  assert (0 <= b / 8 < 32) by (split; [apply Z.div_pos | apply Z.div_lt_upper_bound]; lia).
  set (a := r / 8) in *. set (c := g / 4) in *. set (d := b / 8) in *.
  rewrite (Z.mod_small (0 + 8 * a * 256)) by lia.
  rewrite (Z.mod_small (0 + 8 * a * 256 + 4 * c * 8)) by lia.
  rewrite Z.mod_small by lia. lia.
Qed.

Lemma pack16_range p : 0 <= pack16 p < 65536.
Proof.
  destruct p as [[r g] b]. unfold pack16, u16. apply Z.mod_pos_bound. lia.
Qed.

Lemma unpack16_pack16 p : pixel_ok p -> unpack16 (pack16 p) = quantize p.
Proof.
  destruct p as [[r g] b]. intros Hp.
  rewrite (unpack16_fields _ (pack16_range _)).
  rewrite (pack16_fields _ _ _ Hp).
  destruct Hp as (Hr & Hg & Hb). unfold quantize.
  rewrite (land_F8 r Hr), (land_FC g Hg), (land_F8 b Hb).
  unfold chan_ok in *.
  assert (0 <= r / 8 < 32) by (split; [apply Z.div_pos | apply Z.div_lt_upper_bound]; lia).
  assert (0 <= g / 4 < 64) by (split; [apply Z.div_pos | apply Z.div_lt_upper_bound]; lia).
  assert (0 <= b / 8 < 32) by (split; [apply Z.div_pos | apply Z.div_lt_upper_bound]; lia).
  set (a := r / 8) in *. set (c := g / 4) in *. set (d := b / 8) in *.
  assert (E1 : (2048 * a + 32 * c + d) / 2048 = a).
  { symmetry. apply (Z.div_unique _ _ a (32 * c + d)); lia. }
  assert (E2 : (2048 * a + 32 * c + d) / 32 = 64 * a + c).
  { symmetry. apply (Z.div_unique _ _ (64 * a + c) d); lia. }
  assert (E3 : (2048 * a + 32 * c + d) mod 32 = d).
  { symmetry. apply (Z.mod_unique _ _ (64 * a + c) d); lia. }
  assert (E4 : (64 * a + c) mod 64 = c).
  { symmetry. apply (Z.mod_unique _ _ a c); lia. }
  rewrite E1, E2, E3, E4. reflexivity.
Qed.

Lemma quantize_ok p : pixel_ok p -> pixel_ok (quantize p).
Proof.
  destruct p as [[r g] b]. intros (Hr & Hg & Hb). unfold quantize.
  rewrite (land_F8 r Hr), (land_FC g Hg), (land_F8 b Hb).
  unfold pixel_ok, chan_ok in *.
  repeat split; Z.div_mod_to_equations; lia.
Qed.

Lemma quantize_idem p : pixel_ok p -> quantize (quantize p) = quantize p.
Proof.
  destruct p as [[r g] b]. intros _. unfold quantize.
  rewrite <- !Z.land_assoc. reflexivity.
Qed.

Lemma u16_word_bytes w : w mod 256 + 256 * (w / 256) = w.
Proof. pose proof (Z.div_mod w 256). lia. Qed.

Lemma unpack_pack_one p :
  pixel_ok p -> _unpack_bin (_pack_bin [[p]]) = Ok [quantize p].
Proof.
  intros Hp. unfold _unpack_bin, _pack_bin. simpl.
  rewrite u16_word_bytes. rewrite (unpack16_pack16 p Hp). reflexivity.
Qed.

Lemma decode_encode p : pixel_ok p -> decode (encode p) = Ok (quantize p).
Proof.
  intros Hp. unfold decode, encode. rewrite (unpack_pack_one p Hp). reflexivity.
Qed.

(** C3: a pixel written and read back has the low three bits of red and
    blue and the low two bits of green cleared, that is, each channel is
    rounded down to a multiple of 8 (red, blue) or 4 (green); the trip
    changes some pixels, and a second trip changes nothing more. *)
Theorem codec_round_trip (p : pixel) (Hp : pixel_ok p) :
  decode (encode p) = Ok (quantize p)
  /\ (let '(r, g, b) := p in
      quantize p = (8 * (r / 8), 4 * (g / 4), 8 * (b / 8)))
  /\ decode (encode (quantize p)) = Ok (quantize p)
  /\ (exists q, pixel_ok q /\ decode (encode q) <> Ok q).
Proof.
  split; [exact (decode_encode p Hp)|].
  split.
  { destruct p as [[r g] b]. destruct Hp as (Hr & Hg & Hb). unfold quantize.
    rewrite (land_F8 r Hr), (land_FC g Hg), (land_F8 b Hb). reflexivity. }
  split.
  { rewrite (decode_encode _ (quantize_ok p Hp)).
    rewrite (quantize_idem p Hp). reflexivity. }
  exists (255, 255, 255). split.
  - unfold pixel_ok, chan_ok. lia.
  - vm_compute. discriminate.
Qed.

Lemma codec_round_trip_witness :
  pixel_ok (200, 130, 7)
  /\ decode (encode (200, 130, 7)) = Ok (200, 128, 0).
Proof.
  assert (H : pixel_ok (200, 130, 7)) by (unfold pixel_ok, chan_ok; lia).
  split; [exact H|].
  exact (proj1 (codec_round_trip (200, 130, 7) H)).
Defined.

(** ** RotationMap *)

Ltac run_m :=
  unfold mbind, M_bind, mret, M_ret, bind, ret, raise, lift,
    get_rotation, put_rotation, get_text_dict in *;
  simpl in *.

Lemma xy_rotated_formula self x y :
  rotation_ok (_rotation self) ->
  _xy_rotated x y self = (Ok (offset_formula (_rotation self) x y), self).
Proof.
  intros Hr. unfold _xy_rotated, offset_formula. run_m.
  destruct Hr as [-> | [-> | [-> | ->]]]; reflexivity.
Qed.

Lemma xy_rotated_unsupported self x y :
  ~ rotation_ok (_rotation self) ->
  _xy_rotated x y self = (Raise ValueError, self).
Proof.
  intros Hr. unfold _xy_rotated, rotation_ok in *. run_m.
  repeat (case_match; [exfalso; apply Hr; lia|]). reflexivity.
Qed.

(** For each supported rotation the map is one-to-one, and its image is
    the interval of 64 cells that starts at [image_start]. *)
Lemma offset_formula_image r x y :
  rotation_ok r -> coord_ok x y ->
  image_start r <= offset_formula r x y <= image_start r + 63.
Proof.
  unfold rotation_ok, coord_ok, offset_formula, image_start.
  intros [-> | [-> | [-> | ->]]] Hxy; simpl; lia.
Qed.

Lemma offset_formula_inj r x y x' y' :
  rotation_ok r -> coord_ok x y -> coord_ok x' y' ->
  offset_formula r x y = offset_formula r x' y' -> x = x' /\ y = y'.
Proof.
  unfold rotation_ok, coord_ok, offset_formula.
  intros [-> | [-> | [-> | ->]]] Hxy Hxy'; simpl; lia.
Qed.

Lemma offset_formula_surj r k :
  rotation_ok r -> image_start r <= k <= image_start r + 63 ->
  exists x y, coord_ok x y /\ offset_formula r x y = k.
Proof.
  unfold rotation_ok, coord_ok, offset_formula, image_start.
  intros [-> | [-> | [-> | ->]]] Hk; simpl in *.
  - exists (k mod 8), (k / 8). Z.div_mod_to_equations. lia.
  - exists ((k + 7) / 8 - 1), ((- k) mod 8).
    Z.div_mod_to_equations. lia.
  - exists ((72 - k) mod 8), ((72 - k) / 8). Z.div_mod_to_equations. lia.
  - exists ((71 - k) / 8), ((k - 64) mod 8). Z.div_mod_to_equations. lia.
Qed.

(** At rotation 0 the map is the bijection onto the 64 cells of the frame. *)
Lemma xy_rotated_rot0_bijection self :
  _rotation self = 0 ->
  (forall x y, coord_ok x y ->
     exists k, fst (_xy_rotated x y self) = Ok k /\ k = x + 8 * y /\ 0 <= k <= 63)
  /\ (forall k, 0 <= k <= 63 ->
        exists x y, coord_ok x y /\ fst (_xy_rotated x y self) = Ok k)
  /\ (forall x y x' y', coord_ok x y -> coord_ok x' y' ->
        fst (_xy_rotated x y self) = fst (_xy_rotated x' y' self) ->
        x = x' /\ y = y').
Proof.
  intros H0.
  assert (Hr : rotation_ok (_rotation self)) by (left; exact H0).
  split; [|split].
  - intros x y Hxy.
    rewrite (xy_rotated_formula self x y Hr), H0. simpl.
    exists (x + 8 * y). unfold coord_ok in *. repeat split; lia.
  - intros k Hk.
    destruct (offset_formula_surj 0 k) as (x & y & Hxy & E);
      [left; reflexivity | unfold image_start; simpl; lia |].
    exists x, y. split; [exact Hxy|].
    rewrite (xy_rotated_formula self x y Hr), H0. simpl. congruence.
  - intros x y x' y' Hxy Hxy' E.
    rewrite !(xy_rotated_formula self _ _ Hr) in E. simpl in E.
    inversion E as [E']. apply (offset_formula_inj _ _ _ _ _ Hr Hxy Hxy' E').
Qed.

(** At rotation 90 no logical coordinate reaches cell 0 of the frame. *)
Lemma xy_rotated_rot90_misses_cell0 self x y :
  _rotation self = 90 -> coord_ok x y -> fst (_xy_rotated x y self) <> Ok 0.
Proof.
  intros H90 Hxy.
  rewrite xy_rotated_formula by (right; left; exact H90).
  rewrite H90. change (offset_formula 90 x y) with (8 + 8 * x - y).
  unfold coord_ok in Hxy. cbn [fst].
  intros E. inversion E. lia.
Qed.

(** C1: for the rotations 90, 180 and 270 the offset computed by
    [_xy_rotated] leaves the 64 cells of the frame: logical (7,0) at 90
    degrees has offset 64, (0,0) at 180 degrees has offset 72, and (0,7) at
    270 degrees has offset 71, so the map is not into [0,63]. *)
Theorem xy_rotated_outside_frame (self : SenseHat) :
  fst (_xy_rotated 7 0 (with_rotation 90 self)) = Ok 64
  /\ fst (_xy_rotated 0 0 (with_rotation 180 self)) = Ok 72
  /\ fst (_xy_rotated 0 7 (with_rotation 270 self)) = Ok 71.
Proof. repeat split. Qed.

(** ** Single-pixel access *)

Lemma xy_rotated_state self x y : snd (_xy_rotated x y self) = self.
Proof.
  unfold _xy_rotated. run_m. repeat case_match; reflexivity.
Qed.

Lemma xy_rotated_eta self x y off :
  fst (_xy_rotated x y self) = Ok off -> _xy_rotated x y self = (Ok off, self).
Proof.
  intros H. pose proof (xy_rotated_state self x y) as Hs.
  destruct (_xy_rotated x y self) as [v s]. simpl in *. congruence.
Qed.

(** The offset depends on the object only through its rotation. *)
Lemma xy_rotated_rotation self self' x y :
  _rotation self' = _rotation self ->
  fst (_xy_rotated x y self') = fst (_xy_rotated x y self).
Proof.
  intros H. unfold _xy_rotated. run_m. rewrite H.
  repeat case_match; reflexivity.
Qed.

Lemma take_drop_inserts {A} (k l : list A) n :
  (n + length k <= length l)%nat ->
  take (length k) (drop n (list_inserts n k l)) = k.
Proof.
  intros Hn. apply list_eq. intros i.
  destruct (decide (i < length k)%nat) as [Hi|Hi].
  - rewrite lookup_take_lt by exact Hi. rewrite lookup_drop.
    rewrite list_lookup_inserts by lia. f_equal. lia.
  - rewrite lookup_take_ge by lia. symmetry. apply lookup_ge_None. lia.
Qed.

Lemma coord_tests x y :
  coord_ok x y ->
  (7 <? x) || (x <? 0) = false /\ (7 <? y) || (y <? 0) = false.
Proof.
  unfold coord_ok. intros [Hx Hy].
  split; apply orb_false_intro; apply Z.ltb_ge; lia.
Qed.

Lemma elements_test r g b :
  pixel_ok (r, g, b) ->
  existsb (fun element => (255 <? element) || (element <? 0)) [r; g; b] = false.
Proof.
  unfold pixel_ok, chan_ok. intros (Hr & Hg & Hb). simpl.
  repeat (apply orb_false_intro); try apply Z.ltb_ge; try reflexivity; lia.
Qed.

(** Where [_xy_rotated] stays inside the frame, a pixel that is set reads
    back quantized and no other byte of the device changes. *)
Lemma set_get_pixel_in_frame self x y r g b off :
  length (fb_mem self) = 128%nat ->
  coord_ok x y -> pixel_ok (r, g, b) ->
  fst (_xy_rotated x y self) = Ok off -> 0 <= off <= 63 ->
  exists self',
    set_pixel x y [r; g; b] self = (Ok tt, self')
    /\ fst (get_pixel x y self') = Ok (quantize (r, g, b))
    /\ _rotation self' = _rotation self
    /\ length (fb_mem self') = 128%nat
    /\ (forall j : nat,
          j <> Z.to_nat (2 * off) -> j <> S (Z.to_nat (2 * off)) ->
          fb_mem self' !! j = fb_mem self !! j).
Proof.
  intros Hlen Hxy Hp Hoff Hrange.
  destruct (coord_tests x y Hxy) as [Hx Hy].
  pose proof (elements_test r g b Hp) as He.
  pose proof (xy_rotated_eta self x y off Hoff) as Heta.
  set (data := _pack_bin [[(r, g, b)]]).
  assert (Hdata : length data = 2%nat) by reflexivity.
  set (self' := mkSenseHat (list_inserts (Z.to_nat (off * 2)) data (fb_mem self))
                  (_rotation self) (_text_dict self)
                  (trace self ++ [EvWrite (off * 2) data])).
  assert (Hset : set_pixel x y [r; g; b] self = (Ok tt, self')).
  { unfold set_pixel. rewrite Hx, Hy, He.
    unfold mbind, M_bind, bind. rewrite Heta.
    unfold fb_write. fold data. rewrite Hdata, Hlen.
    replace ((0 <=? off * 2) && (off * 2 + Z.of_nat 2 <=? Z.of_nat 128))
      with true; [reflexivity|].
    symmetry. apply andb_true_intro. split; apply Z.leb_le; lia. }
  exists self'. split; [exact Hset|].
  assert (Hoff' : _xy_rotated x y self' = (Ok off, self')).
  { apply xy_rotated_eta.
    rewrite (xy_rotated_rotation self self') by reflexivity. exact Hoff. }
  split; [|split; [reflexivity|split]].
  - unfold get_pixel. rewrite Hx, Hy.
    unfold mbind, M_bind, bind. rewrite Hoff'.
    unfold fb_read.
    replace (0 <=? off * 2) with true by (symmetry; apply Z.leb_le; lia).
    change 2%nat with (length data) at 1.
    subst self'. cbn [fb_mem].
    rewrite take_drop_inserts by (rewrite Hdata, Hlen; lia).
    pose proof (unpack_pack_one (r, g, b) Hp) as Hu.
    change (_unpack_bin data = Ok [quantize (r, g, b)]) in Hu.
    unfold lift. rewrite Hu. reflexivity.
  - subst self'. cbn [fb_mem]. rewrite length_inserts. exact Hlen.
  - intros j Hj1 Hj2. subst self'. cbn [fb_mem].
    destruct (decide (j < Z.to_nat (off * 2))%nat) as [Hlt|Hge].
    + apply list_lookup_inserts_lt. exact Hlt.
    + apply list_lookup_inserts_ge. rewrite Hdata.
      replace (off * 2) with (2 * off) in * by lia. lia.
Qed.

(** At rotation 0 every coordinate is inside the frame. *)
Lemma set_get_pixel_rot0 self x y r g b :
  length (fb_mem self) = 128%nat -> _rotation self = 0 ->
  coord_ok x y -> pixel_ok (r, g, b) ->
  exists self',
    set_pixel x y [r; g; b] self = (Ok tt, self')
    /\ fst (get_pixel x y self') = Ok (quantize (r, g, b))
    /\ (forall j : nat,
          j <> Z.to_nat (2 * (x + 8 * y)) -> j <> S (Z.to_nat (2 * (x + 8 * y))) ->
          fb_mem self' !! j = fb_mem self !! j).
Proof.
  intros Hlen H0 Hxy Hp.
  assert (Hoff : fst (_xy_rotated x y self) = Ok (x + 8 * y)).
  { rewrite xy_rotated_formula by (left; exact H0). rewrite H0. reflexivity. }
  destruct (set_get_pixel_in_frame self x y r g b _ Hlen Hxy Hp Hoff)
    as (self' & Hset & Hget & _ & _ & Hother).
  { unfold coord_ok in Hxy. lia. }
  exists self'. auto.
Qed.

(** C2: at rotation 90 the logical pixel (7,0) lies outside the device:
    [set_pixel] is refused by the device, and [get_pixel] reads no bytes and
    fails, whatever the frame holds; so the pixel that was set is not read
    back at that rotation. *)
Theorem set_get_pixel_rot90_corner (self : SenseHat) (r g b : Z)
    (Hlen : length (fb_mem self) = 128%nat)
    (Hrot : _rotation self = 90)
    (Hp : pixel_ok (r, g, b)) :
  set_pixel 7 0 [r; g; b] self = (Raise IOError, self)
  /\ get_pixel 7 0 self = (Raise IndexError, self)
  /\ (set_pixel 7 0 [r; g; b];; get_pixel 7 0) self = (Raise IOError, self).
Proof.
  pose proof (elements_test r g b Hp) as He.
  destruct (coord_tests 7 0) as [Hx Hy]; [unfold coord_ok; lia|].
  assert (Hoff : _xy_rotated 7 0 self = (Ok 64, self)).
  { rewrite xy_rotated_formula by (right; left; exact Hrot).
    rewrite Hrot. reflexivity. }
  assert (Hset : set_pixel 7 0 [r; g; b] self = (Raise IOError, self)).
  { unfold set_pixel. rewrite Hx, Hy, He.
    unfold mbind, M_bind, bind. rewrite Hoff.
    unfold fb_write. rewrite Hlen. reflexivity. }
  split; [exact Hset|]. split.
  - unfold get_pixel. rewrite Hx, Hy.
    unfold mbind, M_bind, bind. rewrite Hoff.
    unfold fb_read. change (0 <=? 64 * 2) with true. cbv iota.
    rewrite drop_ge by (rewrite Hlen; apply Nat.leb_le; reflexivity).
    reflexivity.
  - unfold mbind, M_bind, bind. rewrite Hset. reflexivity.
Qed.

Lemma set_get_pixel_rot90_corner_witness :
  let self := mkSenseHat (replicate 128 0) 90 ∅ [] in
  set_pixel 7 0 [255; 255; 255] self = (Raise IOError, self)
  /\ get_pixel 7 0 self = (Raise IndexError, self)
  /\ (set_pixel 7 0 [255; 255; 255];; get_pixel 7 0) self = (Raise IOError, self).
Proof.
  intros self.
  apply (set_get_pixel_rot90_corner self 255 255 255).
  - reflexivity.
  - reflexivity.
  - unfold pixel_ok, chan_ok. lia.
Defined.

(** ** Trimming glyphs *)

Lemma row_sum_nonneg row : Forall pixel_ok row -> 0 <= row_sum row.
Proof.
  unfold row_sum, channels.
  induction 1 as [|[[r g] b] row (Hr & Hg & Hb) _ IH]; [reflexivity|].
  cbn [map mjoin list_join app foldr]. unfold chan_ok in *.
  change (mjoin (map (fun p : pixel => let '(r, g, b) := p in [r; g; b]) row))
    with (channels row) in *.
  fold (channels row) in IH. lia.
Qed.

Lemma glyph_rows char :
  glyph_ok char ->
  exists r0 r1 r2 r3 r4,
    char = [r0; r1; r2; r3; r4]
    /\ 0 <= row_sum r0 /\ 0 <= row_sum r1 /\ 0 <= row_sum r2
    /\ 0 <= row_sum r3 /\ 0 <= row_sum r4.
Proof.
  intros [Hlen Hrows].
  destruct char as [|r0 [|r1 [|r2 [|r3 [|r4 [|]]]]]]; try discriminate.
  exists r0, r1, r2, r3, r4. split; [reflexivity|].
  repeat match goal with
         | H : Forall _ (_ :: _) |- _ => apply Forall_cons in H as [[_ ?] H]
         end.
  repeat split; apply row_sum_nonneg; assumption.
Qed.

Ltac case_row r :=
  let E := fresh "E" in
  destruct (0 <? row_sum r) eqn:E;
  [apply Z.ltb_lt in E | apply Z.ltb_ge in E].

(** C5 (amended): a glyph with some non-zero channel loses exactly its
    leading and trailing rows of channel sum zero, and 1 to 5 rows remain;
    a glyph that is entirely black is returned as it is, with its 5 rows. *)
Theorem trim_whitespace_rows (char : grid) (Hchar : glyph_ok char) :
  (arr_sum char = 0 -> _trim_whitespace char = char)
  /\ (0 < arr_sum char ->
      exists lead trail,
        char = lead ++ _trim_whitespace char ++ trail
        /\ Forall black_row lead /\ Forall black_row trail
        /\ (exists row, head (_trim_whitespace char) = Some row /\ 0 < row_sum row)
        /\ (exists row, last (_trim_whitespace char) = Some row /\ 0 < row_sum row)
        /\ (1 <= length (_trim_whitespace char) <= 5)%nat).
Proof.
  destruct (glyph_rows char Hchar)
    as (r0 & r1 & r2 & r3 & r4 & -> & H0 & H1 & H2 & H3 & H4).
  split.
  - intros Hsum. unfold _trim_whitespace. rewrite Hsum. reflexivity.
  - intros Hsum. unfold _trim_whitespace.
    replace (0 <? arr_sum [r0; r1; r2; r3; r4]) with true
      by (symmetry; apply Z.ltb_lt; exact Hsum).
    unfold arr_sum in Hsum. cbn [foldr] in Hsum.
    unfold glyph_row, for_break.
    cbn [lookup_total list_lookup_total].
    case_row r0; case_row r1; case_row r2; case_row r3; case_row r4;
      try (exfalso; lia);
      cbn [drop take Nat.sub].
    all: unfold black_row.
    all: first
      [ exists [], []; cbn [app]; split; [reflexivity|]
      | exists [], [r4]; cbn [app]; split; [reflexivity|]
      | exists [], [r3; r4]; cbn [app]; split; [reflexivity|]
      | exists [], [r2; r3; r4]; cbn [app]; split; [reflexivity|]
      | exists [], [r1; r2; r3; r4]; cbn [app]; split; [reflexivity|]
      | exists [r0], []; cbn [app]; split; [reflexivity|]
      | exists [r0], [r4]; cbn [app]; split; [reflexivity|]
      | exists [r0], [r3; r4]; cbn [app]; split; [reflexivity|]
      | exists [r0], [r2; r3; r4]; cbn [app]; split; [reflexivity|]
      | exists [r0; r1], []; cbn [app]; split; [reflexivity|]
      | exists [r0; r1], [r4]; cbn [app]; split; [reflexivity|]
      | exists [r0; r1], [r3; r4]; cbn [app]; split; [reflexivity|]
      | exists [r0; r1; r2], []; cbn [app]; split; [reflexivity|]
      | exists [r0; r1; r2], [r4]; cbn [app]; split; [reflexivity|]
      | exists [r0; r1; r2; r3], []; cbn [app]; split; [reflexivity|] ].
    all: split; [repeat constructor; lia|].
    all: split; [repeat constructor; lia|].
    all: split; [eexists; split; [reflexivity|lia]|].
    all: split; [eexists; split; [reflexivity|lia]|].
    all: cbn [length]; lia.
Qed.

(** ** 8 x 8 arrays *)

(** An 8 x 8 array is the array of its 64 entries. *)
Lemma shape8_cases (P : grid -> Prop) :
  (forall a00 a01 a02 a03 a04 a05 a06 a07 a10 a11 a12 a13 a14 a15 a16 a17 a20 a21 a22 a23 a24 a25 a26 a27 a30 a31 a32 a33 a34 a35 a36 a37 a40 a41 a42 a43 a44 a45 a46 a47 a50 a51 a52 a53 a54 a55 a56 a57 a60 a61 a62 a63 a64 a65 a66 a67 a70 a71 a72 a73 a74 a75 a76 a77 : pixel,
     P [[a00; a01; a02; a03; a04; a05; a06; a07];
       [a10; a11; a12; a13; a14; a15; a16; a17];
       [a20; a21; a22; a23; a24; a25; a26; a27];
       [a30; a31; a32; a33; a34; a35; a36; a37];
       [a40; a41; a42; a43; a44; a45; a46; a47];
       [a50; a51; a52; a53; a54; a55; a56; a57];
       [a60; a61; a62; a63; a64; a65; a66; a67];
       [a70; a71; a72; a73; a74; a75; a76; a77]]) ->
  forall m, shape8 m -> P m.
Proof.
  intros HP m [Hlen Hrows].
  destruct m as [|r0 [|r1 [|r2 [|r3 [|r4 [|r5 [|r6 [|r7 [|]]]]]]]]];
    try (exfalso; simpl in Hlen; lia).
  clear Hlen.
  repeat match goal with
         | H : Forall _ (_ :: _) |- _ => apply Forall_cons in H as [? H]
         end.
  repeat match goal with
         | H : length ?r = 8%nat |- _ =>
             destruct r as [|? [|? [|? [|? [|? [|? [|? [|? [|]]]]]]]]];
             try (exfalso; simpl in H; lia); clear H
         end.
  apply HP.
Qed.

Lemma flat_rows_of w h : forall a, flat (rows_of w h a) = take (h * w) a.
Proof.
  induction h as [|h IH]; intros a; [reflexivity|].
  cbn [rows_of Nat.mul]. rewrite <- take_take_drop, <- IH. reflexivity.
Qed.

Lemma flat_rows_of_64 a : length a = 64%nat -> flat (rows_of 8 8 a) = a.
Proof.
  intros H. rewrite flat_rows_of. apply take_ge. rewrite H. reflexivity.
Qed.

Lemma rows_of_shape w h : forall a,
  (h * w <= length a)%nat ->
  length (rows_of w h a) = h
  /\ Forall (fun row => length row = w) (rows_of w h a).
Proof.
  induction h as [|h IH]; intros a Hlen; [split; [reflexivity|constructor]|].
  cbn [rows_of]. cbn [Nat.mul] in Hlen.
  destruct (IH (drop w a)) as [H1 H2]; [rewrite length_drop; lia|].
  split; [cbn [length]; congruence|].
  constructor; [apply length_take_le; lia | exact H2].
Qed.

Lemma rows_of_shape8 a : length a = 64%nat -> shape8 (rows_of 8 8 a).
Proof. intros H. apply rows_of_shape. rewrite H. reflexivity. Qed.

Lemma rows_of_flat m : shape8 m -> rows_of 8 8 (flat m) = m.
Proof. revert m. apply shape8_cases. reflexivity. Qed.

Lemma flat_length m : shape8 m -> length (flat m) = 64%nat.
Proof. revert m. apply shape8_cases. reflexivity. Qed.

Lemma rot90_mod m k : rot90 m k = rot90 m (k mod 4).
Proof. unfold rot90. rewrite Z.mod_mod by lia. reflexivity. Qed.

(** [np.rot90] is one of four maps. *)
Lemma rot90_four (P : grid -> Prop) m k :
  P (rot90 m 0) -> P (rot90 m 1) -> P (rot90 m 2) -> P (rot90 m 3) ->
  P (rot90 m k).
Proof.
  intros P0 P1 P2 P3. rewrite rot90_mod.
  pose proof (Z.mod_pos_bound k 4 ltac:(lia)) as Hk.
  assert (Hc : k mod 4 = 0 \/ k mod 4 = 1 \/ k mod 4 = 2 \/ k mod 4 = 3) by lia.
  destruct Hc as [-> | [-> | [-> | ->]]]; assumption.
Qed.

Lemma rot90_shape8 m k : shape8 m -> shape8 (rot90 m k).
Proof.
  intros Hm. apply rot90_four; revert m Hm; apply shape8_cases; intros;
    (split; [reflexivity | repeat constructor]).
Qed.

Lemma rot90_Forall (Q : pixel -> Prop) m k :
  shape8 m -> Forall (Forall Q) m -> Forall (Forall Q) (rot90 m k).
Proof.
  intros Hm HQ.
  apply rot90_four; revert HQ; pattern m; revert m Hm; apply shape8_cases;
    cbv beta; intros;
    repeat match goal with
           | H : Forall _ (_ :: _) |- _ => apply Forall_cons in H as [? H]
           end;
    repeat constructor; assumption.
Qed.

(** Turning by [k] quarter turns and then by [4 - k] gives the array back. *)
Lemma rot90_inverse m k :
  shape8 m -> rot90 (rot90 m k) (4 - k) = m.
Proof.
  intros Hm. rewrite (rot90_mod (rot90 m k)), (rot90_mod m k).
  replace ((4 - k) mod 4) with ((4 - k mod 4) mod 4).
  2:{ rewrite Zminus_mod_idemp_r. reflexivity. }
  pose proof (Z.mod_pos_bound k 4 ltac:(lia)) as Hk.
  assert (Hc : k mod 4 = 0 \/ k mod 4 = 1 \/ k mod 4 = 2 \/ k mod 4 = 3) by lia.
  destruct Hc as [-> | [-> | [-> | ->]]];
    revert m Hm; apply shape8_cases; reflexivity.
Qed.

(** ** Validation in [set_pixels] *)

Lemma u16_pixel_id p : pixel_ok p -> u16_pixel p = p.
Proof.
  destruct p as [[r g] b]. unfold pixel_ok, chan_ok, u16_pixel, u16.
  intros (Hr & Hg & Hb). rewrite !Z.mod_small by lia. reflexivity.
Qed.

Lemma map_u16_pixel_id a : Forall pixel_ok a -> map u16_pixel a = a.
Proof.
  induction 1 as [|p a Hp _ IH]; [reflexivity|].
  cbn [map]. rewrite (u16_pixel_id p Hp), IH. reflexivity.
Qed.

Lemma foldl_max_le b : forall vs v,
  foldl Z.max v vs <= b <-> v <= b /\ Forall (fun x => x <= b) vs.
Proof.
  induction vs as [|x vs IH]; intros v; cbn [foldl].
  - split; [intros H; split; [exact H|constructor] | intros [H _]; exact H].
  - rewrite IH, Forall_cons, Z.max_lub_iff. tauto.
Qed.

Lemma foldl_min_ge b : forall vs v,
  b <= foldl Z.min v vs <-> b <= v /\ Forall (fun x => b <= x) vs.
Proof.
  induction vs as [|x vs IH]; intros v; cbn [foldl].
  - split; [intros H; split; [exact H|constructor] | intros [H _]; exact H].
  - rewrite IH, Forall_cons, Z.min_glb_iff. tauto.
Qed.

Lemma channels_cons r g b a : channels ((r, g, b) :: a) = r :: g :: b :: channels a.
Proof. reflexivity. Qed.

Lemma channels_ok a : Forall chan_ok (channels a) <-> Forall pixel_ok a.
Proof.
  induction a as [|[[r g] b] a IH].
  - split; constructor.
  - rewrite channels_cons, !Forall_cons, IH. unfold pixel_ok. tauto.
Qed.

Lemma range_test_false a : range_test a = false <-> Forall pixel_ok a.
Proof.
  rewrite <- channels_ok. unfold range_test, arr_max, arr_min.
  destruct (channels a) as [|v vs].
  - split; [constructor | reflexivity].
  - rewrite orb_false_iff, !Z.ltb_ge, foldl_max_le, foldl_min_ge.
    rewrite Forall_cons. unfold chan_ok.
    split.
    + intros [[H1 H2] [H3 H4]]. split; [lia|].
      rewrite Forall_forall in *. intros x Hx.
      specialize (H2 x Hx). specialize (H4 x Hx). lia.
    + intros [H1 H2]. rewrite Forall_forall in H2.
      repeat split; try lia; apply Forall_forall; intros x Hx;
        specialize (H2 x Hx); lia.
Qed.

Lemma turned_shape8 r k m : shape8 m -> shape8 (turned r k m).
Proof.
  intros Hm. unfold turned. destruct (0 <? r); [apply rot90_shape8|]; exact Hm.
Qed.

Lemma turned_Forall (Q : pixel -> Prop) r k m :
  shape8 m -> Forall (Forall Q) m -> Forall (Forall Q) (turned r k m).
Proof.
  intros Hm HQ. unfold turned.
  destruct (0 <? r); [apply rot90_Forall|]; assumption.
Qed.

Lemma mjoin_cons {A} (x : list A) (l : list (list A)) :
  mjoin (x :: l) = x ++ mjoin l.
Proof. reflexivity. Qed.

Lemma pack_row_length (row : list pixel) :
  length (mjoin (map (fun p => bytes_of_u16 (pack16 p)) row))
  = (2 * length row)%nat.
Proof.
  induction row as [|p row IH]; [reflexivity|].
  cbn [map]. rewrite mjoin_cons, length_app, IH. cbn [bytes_of_u16 length]. lia.
Qed.

Lemma pack_bin_length m : length (_pack_bin m) = (2 * length (flat m))%nat.
Proof.
  unfold _pack_bin, flat.
  induction m as [|row m IH]; [reflexivity|].
  cbn [map]. rewrite !mjoin_cons, !length_app, IH, pack_row_length. lia.
Qed.

Lemma list_inserts_all {A} (data mem : list A) :
  length data = length mem -> list_inserts 0 data mem = data.
Proof.
  intros H. rewrite <- (app_nil_r data) at 1.
  apply list_inserts_0_l. exact H.
Qed.

(** [set_pixels] on a well-formed array and a 128-byte device. *)
Lemma set_pixels_ok a self :
  length a = 64%nat -> Forall pixel_ok a -> length (fb_mem self) = 128%nat ->
  let data := _pack_bin (turned (_rotation self) (_rotation self / 90)
                                (rows_of 8 8 a)) in
  set_pixels a self =
    (Ok tt, mkSenseHat data (_rotation self) (_text_dict self)
                       (trace self ++ [EvWrite 0 data])).
Proof.
  intros Hlen Hok Hmem data.
  unfold set_pixels. rewrite (map_u16_pixel_id a Hok), Hlen.
  change (negb (64 =? 64)%nat) with false. cbv iota.
  pose proof (proj2 (range_test_false a) Hok) as Ht.
  unfold range_test in Ht. rewrite Ht.
  unfold mbind, M_bind, bind, get_rotation.
  fold (turned (_rotation self) (_rotation self / 90) (rows_of 8 8 a)).
  fold data.
  assert (Hdata : length data = 128%nat).
  { unfold data. rewrite pack_bin_length, flat_length; [reflexivity|].
    apply turned_shape8, rows_of_shape8, Hlen. }
  unfold fb_write. rewrite Hdata, Hmem.
  change ((0 <=? 0) && (0 + Z.of_nat 128 <=? Z.of_nat 128)) with true.
  cbv iota. change (Z.to_nat 0) with 0%nat.
  rewrite list_inserts_all by congruence. reflexivity.
Qed.

(** An array that does not hold 64 pixels is rejected and nothing is
    written. *)
Lemma set_pixels_wrong_count a self :
  length a <> 64%nat -> set_pixels a self = (Raise ValueError, self).
Proof.
  intros Hlen. unfold set_pixels. rewrite length_map.
  destruct (length a =? 64)%nat eqn:E; [apply Nat.eqb_eq in E; contradiction|].
  reflexivity.
Qed.

(** An array with a channel that is outside [0,255] after the conversion
    to [uint16] is rejected and nothing is written. *)
Lemma set_pixels_out_of_range a self :
  ~ Forall pixel_ok (map u16_pixel a) ->
  set_pixels a self = (Raise ValueError, self).
Proof.
  intros Hbad. unfold set_pixels.
  destruct (negb (length (map u16_pixel a) =? 64)%nat); [reflexivity|].
  destruct (range_test (map u16_pixel a)) eqn:E.
  - unfold range_test in E. rewrite E. reflexivity.
  - apply range_test_false in E. contradiction.
Qed.

(** Whenever [set_pixels] raises, the device and the object are as before. *)
Lemma set_pixels_raise_state a self e :
  fst (set_pixels a self) = Raise e -> snd (set_pixels a self) = self.
Proof.
  unfold set_pixels.
  destruct (negb (length (map u16_pixel a) =? 64)%nat); [reflexivity|].
  destruct ((255 <? arr_max (map u16_pixel a)) || (arr_min (map u16_pixel a) <? 0));
    [reflexivity|].
  unfold mbind, M_bind, bind, get_rotation, fb_write.
  case_match; [discriminate | reflexivity].
Qed.

(** C6: an integer array with a channel 65791 (outside [0,255]) is not
    rejected: the conversion to [uint16] turns the channel into 255 before
    the range test, and the frame is written with that value. *)
Theorem set_pixels_wraps_channel :
  let self := mkSenseHat (replicate 128 0) 0 ∅ [] in
  let pixel_list := (65791, 0, 0) :: replicate 63 (0, 0, 0) in
  ~ pixel_ok (65791, 0, 0)
  /\ fst (set_pixels pixel_list self) = Ok tt
  /\ fb_mem (snd (set_pixels pixel_list self))
     = _pack_bin (rows_of 8 8 ((255, 0, 0) :: replicate 63 (0, 0, 0)))
  /\ take 2 (fb_mem (snd (set_pixels pixel_list self))) = [0; 248].
Proof.
  intros self pixel_list. split.
  - unfold pixel_ok, chan_ok. lia.
  - vm_compute. repeat split.
Qed.

(** ** Whole frames *)

Lemma unpack16_on_device w : 0 <= w < 65536 -> on_device (unpack16 w).
Proof.
  intros Hw. rewrite (unpack16_fields w Hw).
  assert (Ha : 0 <= w / 2048 < 32) by (Z.div_mod_to_equations; lia).
  assert (Hc : 0 <= (w / 32) mod 64 < 64) by (apply Z.mod_pos_bound; lia).
  assert (Hd : 0 <= w mod 32 < 32) by (apply Z.mod_pos_bound; lia).
  set (a := w / 2048) in *. set (c := (w / 32) mod 64) in *.
  set (d := w mod 32) in *.
  assert (Hok : pixel_ok (8 * a, 4 * c, 8 * d))
    by (unfold pixel_ok, chan_ok; lia).
  split; [exact Hok|].
  destruct Hok as (H1 & H2 & H3). unfold quantize.
  rewrite (land_F8 _ H1), (land_FC _ H2), (land_F8 _ H3).
  assert (E1 : 8 * a / 8 = a) by (rewrite Z.mul_comm; apply Z.div_mul; lia).
  assert (E2 : 4 * c / 4 = c) by (rewrite Z.mul_comm; apply Z.div_mul; lia).
  assert (E3 : 8 * d / 8 = d) by (rewrite Z.mul_comm; apply Z.div_mul; lia).
  rewrite E1, E2, E3. reflexivity.
Qed.

Lemma on_device_quantize p : pixel_ok p -> on_device (quantize p).
Proof.
  intros Hp. split; [apply quantize_ok, Hp | apply quantize_idem, Hp].
Qed.

Lemma map_quantize_id a : Forall on_device a -> map quantize a = a.
Proof.
  induction 1 as [|p a [_ Hp] _ IH]; [reflexivity|].
  cbn [map]. rewrite Hp, IH. reflexivity.
Qed.

Lemma on_device_ok a : Forall on_device a -> Forall pixel_ok a.
Proof. intros H. eapply Forall_impl; [exact H|]. intros p [Hp _]. exact Hp. Qed.

(** The bytes the device holds decode to as many pixels, all of them
    pixels of the device. *)
Lemma unpack_bytes n : forall mem,
  length mem = (2 * n)%nat -> Forall chan_ok mem ->
  exists px, _unpack_bin mem = Ok px /\ length px = n /\ Forall on_device px.
Proof.
  unfold _unpack_bin.
  induction n as [|n IH]; intros mem Hlen Hmem.
  - destruct mem; [|discriminate]. exists []. repeat split. constructor.
  - destruct mem as [|lo [|hi mem]]; try (exfalso; simpl in Hlen; lia).
    apply Forall_cons in Hmem as [Hlo Hmem].
    apply Forall_cons in Hmem as [Hhi Hmem].
    destruct (IH mem) as (px & Hpx & Hn & Hdev);
      [simpl in Hlen; lia | exact Hmem |].
    cbn [fromstring_u16].
    destruct (fromstring_u16 mem) as [ws|e]; [|discriminate].
    inversion Hpx; subst px.
    exists (unpack16 (lo + 256 * hi) :: map unpack16 ws).
    split; [reflexivity|]. split; [cbn [length]; congruence|].
    constructor; [|exact Hdev].
    apply unpack16_on_device. unfold chan_ok in *. lia.
Qed.

Lemma unpack_pack_pixels a :
  Forall pixel_ok a ->
  _unpack_bin (mjoin (map (fun p => bytes_of_u16 (pack16 p)) a))
  = Ok (map quantize a).
Proof.
  unfold _unpack_bin.
  induction 1 as [|p a Hp _ IH]; [reflexivity|].
  cbn [map]. rewrite mjoin_cons. cbn [bytes_of_u16 app fromstring_u16].
  destruct (fromstring_u16 (mjoin (map (fun p => bytes_of_u16 (pack16 p)) a)))
    as [ws|e]; [|discriminate].
  inversion IH as [E]. cbn [map].
  rewrite u16_word_bytes, (unpack16_pack16 p Hp). reflexivity.
Qed.

Lemma mjoin_app {A} (l k : list (list A)) : mjoin (l ++ k) = mjoin l ++ mjoin k.
Proof.
  induction l as [|x l IH]; [reflexivity|].
  cbn [app]. rewrite !mjoin_cons, IH, app_assoc. reflexivity.
Qed.

Lemma pack_bin_flat m :
  _pack_bin m = mjoin (map (fun p => bytes_of_u16 (pack16 p)) (flat m)).
Proof.
  unfold _pack_bin, flat.
  induction m as [|row m IH]; [reflexivity|].
  cbn [map]. rewrite !mjoin_cons, map_app, mjoin_app, IH. reflexivity.
Qed.

Lemma Forall_flat (Q : pixel -> Prop) m : Forall (Forall Q) m -> Forall Q (flat m).
Proof.
  unfold flat. induction 1 as [|row m Hrow _ IH]; [constructor|].
  rewrite mjoin_cons. apply Forall_app. split; assumption.
Qed.

Lemma Forall_rows_of (Q : pixel -> Prop) w h : forall a,
  Forall Q a -> Forall (Forall Q) (rows_of w h a).
Proof.
  induction h as [|h IH]; intros a Ha; [constructor|].
  cbn [rows_of]. constructor; [apply Forall_take, Ha | apply IH, Forall_drop, Ha].
Qed.

Lemma unpack_pack_bin m :
  Forall (Forall pixel_ok) m -> _unpack_bin (_pack_bin m) = Ok (map quantize (flat m)).
Proof.
  intros Hm. rewrite pack_bin_flat. apply unpack_pack_pixels, Forall_flat, Hm.
Qed.

(** [get_pixels] on a 128-byte device whose bytes decode to [px]. *)
Lemma get_pixels_unpacked self px :
  length (fb_mem self) = 128%nat ->
  _unpack_bin (fb_mem self) = Ok px -> length px = 64%nat ->
  get_pixels self =
    (Ok (flat (turned (_rotation self) ((360 - _rotation self) / 90)
                      (rows_of 8 8 px))), self).
Proof.
  intros Hmem Hpx Hlen. unfold get_pixels, mbind, M_bind, bind, fb_read.
  change (0 <=? 0) with true. cbv iota. change (Z.to_nat 0) with 0%nat.
  rewrite drop_0, take_ge by (rewrite Hmem; reflexivity).
  unfold lift. rewrite Hpx. unfold get_rotation. rewrite Hlen.
  change (negb (64 =? 64)%nat) with false. cbv iota.
  unfold turned. destruct (0 <? _rotation self); [reflexivity|].
  rewrite (flat_rows_of_64 px Hlen). reflexivity.
Qed.

Lemma shown_props r px :
  length px = 64%nat -> Forall on_device px ->
  length (shown r px) = 64%nat /\ Forall on_device (shown r px).
Proof.
  intros Hlen Hdev. unfold shown.
  pose proof (rows_of_shape8 px Hlen) as Hs.
  split.
  - apply flat_length, turned_shape8, Hs.
  - apply Forall_flat, turned_Forall; [exact Hs|].
    apply Forall_rows_of, Hdev.
Qed.

(** [get_pixels] right after the frame [m] was written. *)
Lemma get_pixels_packed self m :
  fb_mem self = _pack_bin m -> shape8 m -> Forall (Forall on_device) m ->
  get_pixels self = (Ok (shown (_rotation self) (flat m)), self).
Proof.
  intros Hmem Hs Hdev.
  assert (Hpx : _unpack_bin (fb_mem self) = Ok (flat m)).
  { rewrite Hmem, unpack_pack_bin.
    - rewrite map_quantize_id; [reflexivity | apply Forall_flat, Hdev].
    - eapply Forall_impl; [exact Hdev|]. intros row. apply on_device_ok. }
  apply get_pixels_unpacked.
  - rewrite Hmem, pack_bin_length, flat_length; [reflexivity | exact Hs].
  - exact Hpx.
  - apply flat_length, Hs.
Qed.

Lemma set_rotation_redraw r self px :
  rotation_ok r ->
  get_pixels self = (Ok px, self) ->
  set_rotation r true self = set_pixels px (with_rotation r self).
Proof.
  intros Hr Hget. unfold set_rotation.
  rewrite bool_decide_eq_true_2
    by (unfold rotation_ok in Hr; destruct Hr as [-> | [-> | [-> | ->]]];
        set_solver).
  unfold mbind, M_bind, bind. rewrite Hget. reflexivity.
Qed.

(** C8: from any frame the device holds, and whatever the rotation was,
    [set_rotation(90)] followed by [set_rotation(0)], both with redraw,
    succeed, and [get_pixels] afterwards returns exactly the 64 pixels it
    returned before. *)
Theorem rotation_round_trip (self : SenseHat)
    (Hmem : length (fb_mem self) = 128%nat)
    (Hbytes : Forall chan_ok (fb_mem self)) :
  exists px self1 self2,
    get_pixels self = (Ok px, self)
    /\ length px = 64%nat
    /\ set_rotation 90 true self = (Ok tt, self1)
    /\ _rotation self1 = 90
    /\ set_rotation 0 true self1 = (Ok tt, self2)
    /\ _rotation self2 = 0
    /\ get_pixels self2 = (Ok px, self2).
Proof.
  destruct (unpack_bytes 64 (fb_mem self) Hmem Hbytes) as (px0 & Hpx0 & Hlen0 & Hdev0).
  pose proof (get_pixels_unpacked self px0 Hmem Hpx0 Hlen0) as Hget.
  fold (shown (_rotation self) px0) in Hget.
  destruct (shown_props (_rotation self) px0 Hlen0 Hdev0) as [HlenL HdevL].
  set (L := shown (_rotation self) px0) in *.
  pose proof (rows_of_shape8 L HlenL) as HsL.
  pose proof (Forall_rows_of on_device 8 8 L HdevL) as HdL.
  (* set_rotation(90) *)
  set (m1 := rot90 (rows_of 8 8 L) 1).
  assert (Hs1 : shape8 m1) by (apply rot90_shape8, HsL).
  assert (Hd1 : Forall (Forall on_device) m1) by (apply rot90_Forall; assumption).
  set (self1 := mkSenseHat (_pack_bin m1) 90 (_text_dict self)
                  (trace self ++ [EvWrite 0 (_pack_bin m1)])).
  assert (Hset1 : set_rotation 90 true self = (Ok tt, self1)).
  { rewrite (set_rotation_redraw 90 self L) by (auto; right; left; reflexivity).
    rewrite set_pixels_ok by (auto using on_device_ok). reflexivity. }
  (* set_rotation(0) *)
  assert (Hget1 : get_pixels self1 = (Ok L, self1)).
  { rewrite (get_pixels_packed self1 m1) by (auto; reflexivity).
    f_equal. f_equal. cbn [_rotation self1]. unfold shown, turned.
    change (0 <? 90) with true. cbv iota.
    rewrite (rows_of_flat m1 Hs1). unfold m1.
    change ((360 - 90) / 90) with (4 - 1).
    rewrite (rot90_inverse _ 1 HsL). apply flat_rows_of_64, HlenL. }
  set (m2 := rows_of 8 8 L).
  set (self2 := mkSenseHat (_pack_bin m2) 0 (_text_dict self)
                  (trace self1 ++ [EvWrite 0 (_pack_bin m2)])).
  assert (Hset2 : set_rotation 0 true self1 = (Ok tt, self2)).
  { rewrite (set_rotation_redraw 0 self1 L) by (auto; left; reflexivity).
    rewrite set_pixels_ok; auto using on_device_ok.
    cbn [with_rotation fb_mem self1].
    rewrite pack_bin_length, flat_length; [reflexivity | exact Hs1]. }
  exists L, self1, self2.
  repeat split; try assumption.
  rewrite (get_pixels_packed self2 m2) by (auto; reflexivity).
  f_equal. f_equal. cbn [_rotation self2]. unfold shown, turned.
  change (0 <? 0) with false. cbv iota.
  unfold m2. rewrite !(flat_rows_of_64 L HlenL). reflexivity.
Qed.

Lemma rotation_round_trip_witness :
  let self := mkSenseHat (replicate 128 255) 270 ∅ [] in
  exists px self1 self2,
    get_pixels self = (Ok px, self)
    /\ length px = 64%nat
    /\ set_rotation 90 true self = (Ok tt, self1)
    /\ _rotation self1 = 90
    /\ set_rotation 0 true self1 = (Ok tt, self2)
    /\ _rotation self2 = 0
    /\ get_pixels self2 = (Ok px, self2).
Proof.
  intros self. apply (rotation_round_trip self).
  - reflexivity.
  - apply Forall_replicate. unfold chan_ok. lia.
Defined.

(** ** Recolouring *)

Lemma lookup_map {A B} (f : A -> B) (l : list A) (i : nat) :
  map f l !! i = f <$> l !! i.
Proof. exact (list_lookup_fmap f l i). Qed.

Lemma grid_eq (m1 m2 : grid) :
  length m1 = length m2 ->
  (forall i j, at2 m1 i j = at2 m2 i j) -> m1 = m2.
Proof.
  intros Hlen Hat. apply list_eq. intros i.
  destruct (m1 !! i) as [row1|] eqn:E1, (m2 !! i) as [row2|] eqn:E2.
  - f_equal. apply list_eq. intros j. specialize (Hat i j).
    unfold at2 in Hat. rewrite E1, E2 in Hat. exact Hat.
  - apply lookup_lt_Some in E1. apply lookup_ge_None in E2. lia.
  - apply lookup_ge_None in E1. apply lookup_lt_Some in E2. lia.
  - reflexivity.
Qed.

Lemma where_eq_elem pixels i j :
  (i, j) ∈ where_eq pixels (255, 255, 255)
  <-> exists p, at2 pixels i j = Some p /\ drawn p = true.
Proof.
  unfold where_eq, at2. rewrite list_elem_of_join. split.
  - intros (l & Hin & Hl).
    apply elem_of_lookup_imap in Hl as (i' & row & -> & Hrow).
    apply list_elem_of_join in Hin as (l2 & Hin2 & Hl2).
    apply elem_of_lookup_imap in Hl2 as (j' & [[r g] b] & -> & Hp).
    unfold drawn.
    rewrite !elem_of_app in Hin2.
    destruct (r =? 255) eqn:Er, (g =? 255) eqn:Eg, (b =? 255) eqn:Eb;
      repeat match goal with
             | H : _ \/ _ |- _ => destruct H as [H|H]
             | H : _ ∈ [] |- _ => apply elem_of_nil in H; contradiction
             | H : _ ∈ [_] |- _ => apply list_elem_of_singleton in H; inversion H; subst
             end;
      rewrite Hrow; exists (r, g, b); rewrite Er, Eg, Eb; split; (assumption || reflexivity).
  - intros ([[r g] b] & Hat & Hd).
    destruct (pixels !! i) as [row|] eqn:Hrow; [|discriminate].
    eexists. split; [|apply (elem_of_lookup_imap_2 _ _ _ i Hrow)].
    apply list_elem_of_join. eexists.
    split; [|apply (elem_of_lookup_imap_2 _ _ _ j Hat)].
    cbv beta iota. unfold drawn in Hd. rewrite !elem_of_app.
    destruct (r =? 255); [left; apply list_elem_of_singleton; reflexivity|].
    destruct (g =? 255); [right; left; apply list_elem_of_singleton; reflexivity|].
    destruct (b =? 255); [right; right; apply list_elem_of_singleton; reflexivity|].
    discriminate.
Qed.

Lemma fill_at2 pixels c i j : at2 (fill pixels c) i j = painted c (at2 pixels i j).
Proof.
  unfold at2, fill, painted. rewrite lookup_map.
  destruct (pixels !! i) as [row|]; [|reflexivity].
  cbn [fmap option_fmap option_map]. rewrite lookup_map.
  destruct (row !! j); reflexivity.
Qed.

Lemma at2_alter_insert pixels i0 j0 c i j :
  at2 (alter (fun row => <[j0 := c]> row) i0 pixels) i j
  = if decide (i0 = i /\ j0 = j)
    then match at2 pixels i j with Some _ => Some c | None => None end
    else at2 pixels i j.
Proof.
  unfold at2. rewrite list_lookup_alter.
  destruct (decide (i0 = i)) as [->|Hi].
  - destruct (pixels !! i) as [row|]; cbn [fmap option_fmap option_map].
    + rewrite list_lookup_insert.
      destruct (decide (j0 = j)) as [->|Hj].
      * destruct (row !! j) eqn:E.
        -- apply lookup_lt_Some in E.
           rewrite !decide_True by (split; [reflexivity | assumption || reflexivity]).
           reflexivity.
        -- apply lookup_ge_None in E.
           rewrite decide_False by lia.
           rewrite decide_True by (split; reflexivity). reflexivity.
      * rewrite !decide_False by tauto. reflexivity.
    + destruct (decide (i = i /\ j0 = j)); reflexivity.
  - rewrite decide_False by tauto. reflexivity.
Qed.

Lemma assign_at_at2 c : forall f_px pixels i j,
  at2 (assign_at pixels f_px c) i j
  = if decide ((i, j) ∈ f_px) then painted c (at2 pixels i j)
    else at2 pixels i j.
Proof.
  unfold assign_at, painted.
  induction f_px as [|[i0 j0] f_px IH]; intros pixels i j.
  - cbn [foldl]. rewrite decide_False by apply not_elem_of_nil. reflexivity.
  - cbn [foldl fst snd]. rewrite IH, at2_alter_insert.
    destruct (decide (i0 = i /\ j0 = j)) as [[-> ->]|Hne].
    + rewrite (decide_True (P := (i, j) ∈ (i, j) :: f_px)) by (left).
      destruct (decide ((i, j) ∈ f_px)); destruct (at2 pixels i j); reflexivity.
    + destruct (decide ((i, j) ∈ f_px)) as [Hin|Hnin].
      * rewrite decide_True by (right; exact Hin). reflexivity.
      * rewrite decide_False; [reflexivity|].
        intros Hin. apply elem_of_cons in Hin as [Heq|Hin]; [|contradiction].
        inversion Heq; subst. tauto.
Qed.

Lemma assign_at_length c : forall f_px pixels,
  length (assign_at pixels f_px c) = length pixels.
Proof.
  unfold assign_at.
  induction f_px as [|ij f_px IH]; intros pixels; [reflexivity|].
  cbn [foldl]. rewrite IH. apply length_alter.
Qed.

(** What the three recolouring lines of [show_letter] and [show_message]
    compute: a pixel with some channel equal to 255 gets the text colour,
    every other pixel the back colour. *)
Lemma recolour_spec pixels text_colour back_colour :
  recolour pixels text_colour back_colour
  = map (map (fun p => if drawn p then u16_pixel text_colour
                       else u16_pixel back_colour)) pixels.
Proof.
  unfold recolour. apply grid_eq.
  - rewrite assign_at_length. unfold fill. rewrite !length_map. reflexivity.
  - intros i j. rewrite assign_at_at2, fill_at2.
    assert (Hmap : at2 (map (map (fun p => if drawn p then u16_pixel text_colour
                                           else u16_pixel back_colour)) pixels) i j
                   = (fun p => if drawn p then u16_pixel text_colour
                               else u16_pixel back_colour) <$> at2 pixels i j).
    { unfold at2. rewrite lookup_map.
      destruct (pixels !! i) as [row|]; [|reflexivity].
      cbn [fmap option_fmap option_map]. apply lookup_map. }
    rewrite Hmap. clear Hmap.
    destruct (decide ((i, j) ∈ where_eq pixels (255, 255, 255))) as [Hin|Hnin].
    + apply where_eq_elem in Hin as (p & Hp & Hd). rewrite Hp.
      cbn [painted fmap option_fmap option_map]. rewrite Hd. reflexivity.
    + destruct (at2 pixels i j) as [p|] eqn:Hp; [|reflexivity].
      cbn [painted fmap option_fmap option_map].
      destruct (drawn p) eqn:Hd; [|reflexivity].
      exfalso. apply Hnin, where_eq_elem. exists p. split; assumption.
Qed.

(** ** Text rendering: the pieces *)

Lemma rotate_left_90_run self :
  rotate_left_90 self = (Ok tt, with_rotation (left_90 (_rotation self)) self).
Proof.
  unfold rotate_left_90, left_90. run_m.
  destruct (_rotation self - 90 <? 0); reflexivity.
Qed.

Lemma get_char_pixels_run s self :
  _get_char_pixels s self =
    (match char_pixels (_text_dict self) s with
     | Some g => Ok g
     | None => Raise KeyError
     end, self).
Proof.
  unfold _get_char_pixels, char_pixels, dict_get. run_m.
  destruct ((String.length s =? 1)%nat && bool_decide (is_Some (_text_dict self !! s)));
    [destruct (_text_dict self !! s) | destruct (_text_dict self !! "?"%string)];
    reflexivity.
Qed.

Lemma char_pixels_some d s :
  is_Some (d !! "?"%string) -> is_Some (char_pixels d s).
Proof.
  intros Hq. unfold char_pixels.
  destruct (String.length s =? 1)%nat; [|exact Hq]. cbn [andb].
  destruct (bool_decide (is_Some (d !! s))) eqn:E; [|exact Hq].
  apply bool_decide_eq_true_1 in E. exact E.
Qed.

Lemma char_pixels_glyph d s g :
  dict_ok d -> char_pixels d s = Some g -> glyph_ok g.
Proof.
  intros [_ Hall]. unfold char_pixels.
  destruct ((String.length s =? 1)%nat && bool_decide (is_Some (d !! s)));
    apply Hall.
Qed.

Lemma glyph_of_ok d s : dict_ok d -> glyph_ok (glyph_of d s).
Proof.
  intros Hd. unfold glyph_of.
  destruct (char_pixels_some d s (proj1 Hd)) as [g Hg].
  rewrite Hg. exact (char_pixels_glyph d s g Hd Hg).
Qed.

(** The loop of [show_message] builds the strip of the specification. *)
Lemma append_chars_run self : forall text acc,
  is_Some (_text_dict self !! "?"%string) ->
  append_chars text (zeros 1 8) acc self =
    (Ok (acc ++ mjoin (map (fun s => _trim_whitespace (glyph_of (_text_dict self) s)
                                     ++ zeros 1 8) text)), self).
Proof.
  induction text as [|s text IH]; intros acc Hq.
  - cbn [append_chars map]. unfold mret, M_ret, ret.
    change (mjoin []) with (@nil (list pixel)). rewrite app_nil_r. reflexivity.
  - cbn [append_chars]. unfold mbind, M_bind, bind, mret, M_ret, ret.
    rewrite get_char_pixels_run. unfold glyph_of.
    destruct (char_pixels_some (_text_dict self) s Hq) as [g Hg]. rewrite Hg.
    specialize (IH ((acc ++ _trim_whitespace g) ++ zeros 1 8) Hq).
    unfold mbind, M_bind, bind, mret, M_ret, ret in IH. rewrite IH.
    cbn [map]. rewrite mjoin_cons. unfold glyph_of. rewrite Hg. cbn [default].
    rewrite <- !app_assoc. reflexivity.
Qed.

(** Without the fallback glyph an unknown character raises [KeyError] and
    the loop stops there; the object is as it was. *)
Lemma append_chars_state self : forall text acc,
  snd (append_chars text (zeros 1 8) acc self) = self.
Proof.
  induction text as [|s text IH]; intros acc; [reflexivity|].
  cbn [append_chars]. unfold mbind, M_bind, bind, mret, M_ret, ret.
  rewrite get_char_pixels_run.
  destruct (char_pixels (_text_dict self) s); [|reflexivity].
  specialize (IH ((acc ++ _trim_whitespace l) ++ zeros 1 8)).
  unfold mbind, M_bind, bind, mret, M_ret, ret in IH.
  exact IH.
Qed.

(** [set_pixels] and [sleep] never assign the rotation field. *)
Lemma set_pixels_rotation a self :
  _rotation (snd (set_pixels a self)) = _rotation self.
Proof.
  unfold set_pixels.
  destruct (negb (length (map u16_pixel a) =? 64)%nat); [reflexivity|].
  destruct ((255 <? arr_max (map u16_pixel a)) || (arr_min (map u16_pixel a) <? 0));
    [reflexivity|].
  unfold mbind, M_bind, bind, get_rotation, fb_write.
  case_match; reflexivity.
Qed.

Lemma scroll_loop_rotation scroll_pixels speed : forall range self,
  _rotation (snd (scroll_loop range scroll_pixels speed self)) = _rotation self.
Proof.
  induction range as [|i range IH]; intros self; [reflexivity|].
  cbn [scroll_loop]. unfold mbind, M_bind, bind.
  pose proof (set_pixels_rotation (flat (take 8 (drop i scroll_pixels))) self) as Hs.
  destruct (set_pixels (flat (take 8 (drop i scroll_pixels))) self) as [[[]|e] s1];
    cbn [snd] in *; [|exact Hs].
  unfold sleep at 1. cbn iota beta.
  specialize (IH (mkSenseHat (fb_mem s1) (_rotation s1) (_text_dict s1)
                             (trace s1 ++ [EvSleep speed]))).
  unfold mbind, M_bind, bind in IH. rewrite IH. exact Hs.
Qed.

(** ** Scrolling *)

Lemma zeros_rows8 h : rows8 (zeros h 8).
Proof. apply Forall_replicate, length_replicate. Qed.

Lemma trim_rows8 char : rows8 char -> rows8 (_trim_whitespace char).
Proof.
  intros H. unfold _trim_whitespace.
  destruct (0 <? arr_sum char); [|exact H].
  apply Forall_take, Forall_drop, H.
Qed.

Lemma glyph_rows8 g : glyph_ok g -> rows8 g.
Proof.
  intros [_ H]. eapply Forall_impl; [exact H|]. intros row [Hr _]. exact Hr.
Qed.

Lemma scroll_strip_rows8 d text : dict_ok d -> rows8 (scroll_strip d text).
Proof.
  intros Hd. unfold scroll_strip, rows8.
  rewrite !Forall_app. split; [apply zeros_rows8|]. split; [|apply zeros_rows8].
  induction (chars_of text) as [|s l IH]; [constructor|].
  cbn [map]. rewrite mjoin_cons, !Forall_app.
  split; [split; [|apply zeros_rows8] | exact IH].
  apply trim_rows8, glyph_rows8, glyph_of_ok, Hd.
Qed.

Lemma recolour_rows8 m tc bc : rows8 m -> rows8 (recolour m tc bc).
Proof.
  intros H. rewrite recolour_spec. unfold rows8 in *.
  rewrite Forall_map. eapply Forall_impl; [exact H|].
  intros row Hrow. cbv beta. rewrite length_map. exact Hrow.
Qed.

Lemma recolour_ok m tc bc :
  pixel_ok tc -> pixel_ok bc -> Forall (Forall pixel_ok) (recolour m tc bc).
Proof.
  intros Htc Hbc. rewrite recolour_spec.
  rewrite Forall_map. apply Forall_forall. intros row _. cbv beta.
  rewrite Forall_map. apply Forall_forall. intros p _. cbv beta.
  rewrite (u16_pixel_id tc Htc), (u16_pixel_id bc Hbc).
  destruct (drawn p); assumption.
Qed.

Lemma recolour_length m tc bc : length (recolour m tc bc) = length m.
Proof. rewrite recolour_spec. apply length_map. Qed.

Lemma window_shape8 m i :
  rows8 m -> (i + 8 <= length m)%nat -> shape8 (take 8 (drop i m)).
Proof.
  intros Hm Hi. split.
  - rewrite length_take, length_drop. lia.
  - apply Forall_take, Forall_drop, Hm.
Qed.

(** Showing one array of 8 rows of 8 valid pixels. *)
Lemma set_pixels_frame m self :
  shape8 m -> Forall (Forall pixel_ok) m -> length (fb_mem self) = 128%nat ->
  set_pixels (flat m) self =
    (Ok tt, mkSenseHat (frame_bytes (_rotation self) m) (_rotation self)
                       (_text_dict self)
                       (trace self ++ [EvWrite 0 (frame_bytes (_rotation self) m)])).
Proof.
  intros Hs Hok Hmem.
  rewrite set_pixels_ok; [|apply flat_length, Hs|apply Forall_flat, Hok|exact Hmem].
  rewrite (rows_of_flat m Hs). reflexivity.
Qed.

Lemma frame_bytes_length r m : shape8 m -> length (frame_bytes r m) = 128%nat.
Proof.
  intros Hs. unfold frame_bytes.
  rewrite pack_bin_length, flat_length; [reflexivity|].
  apply turned_shape8, Hs.
Qed.

Lemma scroll_loop_run scroll_pixels speed :
  rows8 scroll_pixels -> Forall (Forall pixel_ok) scroll_pixels ->
  forall range self,
    Forall (fun i => (i + 8 <= length scroll_pixels)%nat) range ->
    length (fb_mem self) = 128%nat ->
    exists self',
      scroll_loop range scroll_pixels speed self = (Ok tt, self')
      /\ trace self' = trace self
           ++ mjoin (map (scroll_events (_rotation self) scroll_pixels speed) range)
      /\ _rotation self' = _rotation self
      /\ _text_dict self' = _text_dict self
      /\ length (fb_mem self') = 128%nat.
Proof.
  intros Hrows Hok.
  induction range as [|i range IH]; intros self Hrange Hmem.
  - exists self. cbn [scroll_loop map]. repeat split; try assumption.
    change (mjoin []) with (@nil event). rewrite app_nil_r. reflexivity.
  - apply Forall_cons in Hrange as [Hi Hrange].
    pose proof (window_shape8 scroll_pixels i Hrows Hi) as Hs.
    assert (Hwok : Forall (Forall pixel_ok) (take 8 (drop i scroll_pixels)))
      by (apply Forall_take, Forall_drop, Hok).
    cbn [scroll_loop]. unfold mbind, M_bind, bind.
    rewrite (set_pixels_frame _ self Hs Hwok Hmem).
    unfold sleep at 1. cbn [fb_mem _rotation _text_dict trace].
    set (data := frame_bytes (_rotation self) (take 8 (drop i scroll_pixels))).
    set (s2 := mkSenseHat data (_rotation self) (_text_dict self)
                 ((trace self ++ [EvWrite 0 data]) ++ [EvSleep speed])).
    destruct (IH s2 Hrange) as (self' & Hrun & Htr & Hrot & Hdict & Hlen).
    { apply frame_bytes_length, Hs. }
    unfold mbind, M_bind, bind in Hrun.
    exists self'. split; [exact Hrun|].
    split; [|split; [exact Hrot | split; [exact Hdict | exact Hlen]]].
    rewrite Htr. cbn [map trace s2 _rotation]. rewrite mjoin_cons.
    unfold scroll_events at 2. fold data.
    rewrite <- !app_assoc. reflexivity.
Qed.

Lemma seq_windows n : Forall (fun i => (i + 8 <= n)%nat) (seq 0 (n - 8)).
Proof.
  apply Forall_forall. intros i Hi. apply elem_of_seq in Hi. lia.
Qed.

Lemma scroll_strip_length d text : (16 <= length (scroll_strip d text))%nat.
Proof.
  unfold scroll_strip, zeros. rewrite !length_app, !length_replicate. lia.
Qed.

Lemma scroll_events_length r scroll_pixels speed (range : list nat) :
  length (mjoin (map (scroll_events r scroll_pixels speed) range))
  = (2 * length range)%nat.
Proof.
  induction range as [|i l IH]; [reflexivity|].
  cbn [map]. rewrite mjoin_cons, length_app, IH. cbn [scroll_events length]. lia.
Qed.

(** C7: for every text, [show_message] builds the strip of the
    specification (a blank 8 x 8 block, each character's trimmed glyph and
    one blank row, a trailing blank 8 x 8 block), recolours it, and then
    makes exactly [len(strip) - 8] device writes, the i-th of rows
    [i, i+8) of the strip, each followed by a sleep of the given speed
    (the two events of [scroll_events]); nothing else is written. *)
Theorem show_message_scroll (self : SenseHat) (text_string : string)
    (scroll_speed : Q) (text_colour back_colour : pixel)
    (Hmem : length (fb_mem self) = 128%nat)
    (Hdict : dict_ok (_text_dict self))
    (Htc : pixel_ok text_colour) (Hbc : pixel_ok back_colour) :
  let strip := scroll_strip (_text_dict self) text_string in
  let scroll_pixels := recolour strip text_colour back_colour in
  let r := left_90 (_rotation self) in
  exists self',
    show_message text_string scroll_speed text_colour back_colour self
      = (Ok tt, self')
    /\ length scroll_pixels = length strip
    /\ trace self'
       = trace self
           ++ mjoin (map (scroll_events r scroll_pixels scroll_speed)
                         (seq 0 (length strip - 8)))
    /\ length (mjoin (map (scroll_events r scroll_pixels scroll_speed)
                          (seq 0 (length strip - 8))))
       = (2 * (length strip - 8))%nat.
Proof.
  intros strip scroll_pixels r.
  pose proof (scroll_strip_rows8 _ text_string Hdict) as Hrows.
  fold strip in Hrows.
  pose proof (recolour_rows8 strip text_colour back_colour Hrows) as Hrows'.
  pose proof (recolour_ok strip text_colour back_colour Htc Hbc) as Hok.
  pose proof (recolour_length strip text_colour back_colour) as Hlen.
  fold scroll_pixels in Hrows', Hok, Hlen.
  set (self1 := with_rotation r self).
  destruct (scroll_loop_run scroll_pixels scroll_speed Hrows' Hok
              (seq 0 (length scroll_pixels - 8)) self1)
    as (self2 & Hrun & Htr & Hrot & Hd2 & Hlen2);
    [apply seq_windows | exact Hmem |].
  exists (with_rotation (_rotation self) self2).
  split; [|split; [exact Hlen|split]].
  - unfold show_message, mbind, M_bind, bind, mret, M_ret, ret.
    unfold get_rotation at 1. rewrite rotate_left_90_run.
    fold r. fold self1.
    rewrite append_chars_run by exact (proj1 Hdict).
    change (_text_dict self1) with (_text_dict self).
    rewrite <- app_assoc. fold (scroll_strip (_text_dict self) text_string).
    fold strip. fold scroll_pixels.
    rewrite Hrun. reflexivity.
  - cbn [with_rotation trace]. rewrite Htr, Hlen. reflexivity.
  - rewrite scroll_events_length, length_seq. reflexivity.
Qed.

(** ** The rotation field during text rendering *)

Lemma show_message_scoped text speed tc bc self :
  show_message text speed tc bc self = scoped (message_body text speed tc bc) self.
Proof.
  unfold show_message, message_body, scoped, mbind, M_bind, bind, mret, M_ret, ret.
  unfold get_rotation at 1. rewrite rotate_left_90_run.
  destruct (append_chars _ _ _ _) as [[g|e] s1]; [|reflexivity].
  destruct (scroll_loop _ _ _ _) as [[[]|e] s2]; reflexivity.
Qed.

Lemma show_letter_scoped s tc bc self :
  (String.length s <= 1)%nat ->
  show_letter s tc bc self = scoped (letter_body s tc bc) self.
Proof.
  intros Hs. unfold show_letter.
  replace (1 <? String.length s)%nat with false
    by (symmetry; apply Nat.ltb_ge; exact Hs).
  unfold letter_body, scoped, mbind, M_bind, bind, mret, M_ret, ret.
  unfold get_rotation at 1. rewrite rotate_left_90_run.
  destruct (_get_char_pixels _ _) as [[g|e] s1]; [|reflexivity].
  destruct (set_pixels _ _) as [[[]|e] s2]; reflexivity.
Qed.

Lemma message_body_rotation text speed tc bc st :
  _rotation (snd (message_body text speed tc bc st)) = _rotation st.
Proof.
  unfold message_body, mbind, M_bind, bind, mret, M_ret, ret.
  pose proof (append_chars_state st (chars_of text) (zeros 8 8)) as Hs.
  destruct (append_chars _ _ _ _) as [[g|e] s1]; cbn [snd] in Hs; subst s1;
    [|reflexivity].
  apply scroll_loop_rotation.
Qed.

Lemma letter_body_rotation s tc bc st :
  _rotation (snd (letter_body s tc bc st)) = _rotation st.
Proof.
  unfold letter_body, mbind, M_bind, bind, mret, M_ret, ret.
  rewrite get_char_pixels_run.
  destruct (char_pixels (_text_dict st) s); [|reflexivity].
  apply set_pixels_rotation.
Qed.

Lemma scoped_outcome body self :
  (forall st, _rotation (snd (body st)) = _rotation st) ->
  (forall self', scoped body self = (Ok tt, self') ->
     _rotation self' = _rotation self)
  /\ (forall e self', scoped body self = (Raise e, self') ->
        _rotation self' = left_90 (_rotation self)).
Proof.
  intros Hbody. unfold scoped.
  specialize (Hbody (with_rotation (left_90 (_rotation self)) self)).
  destruct (body _) as [[[]|e] s1]; cbn [snd with_rotation _rotation] in Hbody.
  - split; [|discriminate]. intros self' E. inversion E. reflexivity.
  - split; [discriminate|]. intros e' self' E. inversion E; subst. exact Hbody.
Qed.

(** C4 (amended): both text methods save the rotation, turn it left by 90
    degrees (0 wraps to 270), run the whole render with that value (the
    render never assigns the field), and assign the saved value back when
    the render returns.  When the render raises, the field is left at the
    turned value; only the length check of [show_letter], which comes
    before the adjustment, raises with the field untouched. *)
Theorem text_rotation_scope (self : SenseHat) (text_string s : string)
    (scroll_speed : Q) (text_colour back_colour : pixel) :
  left_90 0 = 270
  /\ show_message text_string scroll_speed text_colour back_colour self
     = scoped (message_body text_string scroll_speed text_colour back_colour) self
  /\ (forall st,
        _rotation (snd (message_body text_string scroll_speed text_colour
                                     back_colour st)) = _rotation st)
  /\ ((String.length s <= 1)%nat ->
      show_letter s text_colour back_colour self
      = scoped (letter_body s text_colour back_colour) self)
  /\ (forall st,
        _rotation (snd (letter_body s text_colour back_colour st)) = _rotation st)
  /\ (forall self',
        show_message text_string scroll_speed text_colour back_colour self
        = (Ok tt, self') ->
        _rotation self' = _rotation self)
  /\ (forall e self',
        show_message text_string scroll_speed text_colour back_colour self
        = (Raise e, self') ->
        _rotation self' = left_90 (_rotation self))
  /\ (forall self',
        show_letter s text_colour back_colour self = (Ok tt, self') ->
        _rotation self' = _rotation self)
  /\ (forall e self',
        show_letter s text_colour back_colour self = (Raise e, self') ->
        ((1 < String.length s)%nat /\ self' = self)
        \/ ((String.length s <= 1)%nat
            /\ _rotation self' = left_90 (_rotation self))).
Proof.
  pose proof (show_message_scoped text_string scroll_speed text_colour
                back_colour self) as Hm.
  pose proof (scoped_outcome _ self
                (message_body_rotation text_string scroll_speed text_colour
                   back_colour)) as [Hm1 Hm2].
  pose proof (scoped_outcome _ self
                (letter_body_rotation s text_colour back_colour)) as [Hl1 Hl2].
  split; [reflexivity|]. split; [exact Hm|].
  split; [apply message_body_rotation|].
  split; [apply show_letter_scoped|].
  split; [apply letter_body_rotation|].
  split; [intros self' E; rewrite Hm in E; exact (Hm1 _ E)|].
  split; [intros e self' E; rewrite Hm in E; exact (Hm2 _ _ E)|].
  destruct (le_lt_dec (String.length s) 1) as [Hs|Hs].
  - pose proof (show_letter_scoped s text_colour back_colour self Hs) as Hl.
    split.
    + intros self' E. rewrite Hl in E. exact (Hl1 _ E).
    + intros e self' E. rewrite Hl in E. right. split; [exact Hs|exact (Hl2 _ _ E)].
  - assert (E0 : show_letter s text_colour back_colour self = (Raise ValueError, self)).
    { unfold show_letter.
      replace (1 <? String.length s)%nat with true
        by (symmetry; apply Nat.ltb_lt; exact Hs).
      reflexivity. }
    rewrite E0. split; [discriminate|].
    intros e self' E. inversion E; subst. left. split; [exact Hs|reflexivity].
Qed.

(** ** A small glyph store to run the methods on *)

Ltac solve_glyph_ok :=
  split; [reflexivity|];
  repeat first
    [ apply Forall_nil_2
    | apply Forall_cons_2
    | reflexivity
    | (unfold pixel_ok, chan_ok, white; lia)
    | split ].

Lemma sample_glyph_ok : glyph_ok sample_glyph.
Proof. solve_glyph_ok. Qed.

Lemma zeros_glyph_ok : glyph_ok (zeros 5 8).
Proof. solve_glyph_ok. Qed.

Lemma sample_dict_ok : dict_ok (_text_dict sample_hat).
Proof.
  split.
  - exists sample_glyph. reflexivity.
  - intros k g Hk. cbn [_text_dict sample_hat] in Hk.
    apply lookup_singleton_Some in Hk as [_ <-].
    exact sample_glyph_ok.
Qed.

Lemma trim_whitespace_rows_witness :
  glyph_ok sample_glyph
  /\ (exists lead trail,
        sample_glyph = lead ++ _trim_whitespace sample_glyph ++ trail
        /\ Forall black_row lead /\ Forall black_row trail
        /\ (exists row, head (_trim_whitespace sample_glyph) = Some row
                        /\ 0 < row_sum row)
        /\ (exists row, last (_trim_whitespace sample_glyph) = Some row
                        /\ 0 < row_sum row)
        /\ (1 <= length (_trim_whitespace sample_glyph) <= 5)%nat).
Proof.
  split; [exact sample_glyph_ok|].
  apply (proj2 (trim_whitespace_rows sample_glyph sample_glyph_ok)).
  vm_compute. reflexivity.
Defined.

(** C5, as stated, fails: the glyph that is entirely black keeps its five
    rows. *)
Lemma trim_black_glyph_keeps_rows :
  glyph_ok (zeros 5 8)
  /\ arr_sum (zeros 5 8) = 0
  /\ _trim_whitespace (zeros 5 8) = zeros 5 8
  /\ length (_trim_whitespace (zeros 5 8)) <> 0%nat.
Proof.
  split; [exact zeros_glyph_ok|]. vm_compute. repeat split. discriminate.
Qed.

Lemma show_message_scroll_witness :
  exists self',
    show_message "?" (1 # 10) white (0, 0, 0) sample_hat = (Ok tt, self')
    /\ length (trace self') = 22%nat.
Proof.
  assert (Hmem : length (fb_mem sample_hat) = 128%nat) by reflexivity.
  assert (Hw : pixel_ok white) by (unfold pixel_ok, chan_ok, white; lia).
  assert (Hb : pixel_ok (0, 0, 0)) by (unfold pixel_ok, chan_ok; lia).
  destruct (show_message_scroll sample_hat "?" (1 # 10) white (0, 0, 0)
              Hmem sample_dict_ok Hw Hb)
    as (self' & Hrun & _ & Htr & Hn).
  exists self'. split; [exact Hrun|].
  rewrite Htr, length_app, Hn. reflexivity.
Defined.

Lemma text_rotation_scope_witness :
  _rotation (snd (show_letter "?" white (0, 0, 0) (with_rotation 90 sample_hat)))
  = 90.
Proof.
  destruct (text_rotation_scope (with_rotation 90 sample_hat) "?" "?" (1 # 10)
              white (0, 0, 0)) as (_ & _ & _ & _ & _ & _ & _ & Hl & _).
  apply Hl. vm_compute. reflexivity.
Defined.

(** C4, as stated, fails: with a text colour that [set_pixels] rejects,
    [show_message] draws the first frame, raises on the second, and leaves
    the rotation at 270 instead of the caller's 0. *)
Lemma show_message_error_leaves_rotation :
  let out := show_message "?" (1 # 10) (256, 0, 0) (0, 0, 0) sample_hat in
  fst out = Raise ValueError
  /\ _rotation sample_hat = 0
  /\ _rotation (snd out) = 270
  /\ length (trace (snd out)) = 2%nat.
Proof. vm_compute. repeat split. Qed.

(** ** Single letters *)

Lemma letter_frame_shape8 char : glyph_ok char -> shape8 (letter_frame char).
Proof.
  intros [Hlen Hrows]. unfold letter_frame, shape8.
  split.
  - rewrite !length_app, Hlen. reflexivity.
  - rewrite !Forall_app. split; [apply Forall_take, zeros_rows8|].
    split; [apply glyph_rows8; split; assumption | apply Forall_drop, zeros_rows8].
Qed.

Lemma recolour_shape8 m tc bc : shape8 m -> shape8 (recolour m tc bc).
Proof.
  intros [Hlen Hrows]. split.
  - rewrite recolour_length. exact Hlen.
  - apply recolour_rows8, Hrows.
Qed.

(** [show_letter] with a glyph of the store and valid colours. *)
Lemma show_letter_run s char tc bc self :
  (String.length s <= 1)%nat ->
  char_pixels (_text_dict self) s = Some char -> glyph_ok char ->
  pixel_ok tc -> pixel_ok bc -> length (fb_mem self) = 128%nat ->
  let data := frame_bytes (left_90 (_rotation self))
                          (recolour (letter_frame char) tc bc) in
  show_letter s tc bc self =
    (Ok tt, mkSenseHat data (_rotation self) (_text_dict self)
                       (trace self ++ [EvWrite 0 data])).
Proof.
  intros Hs Hchar Hg Htc Hbc Hmem data.
  rewrite (show_letter_scoped s tc bc self Hs).
  unfold scoped, letter_body, mbind, M_bind, bind, mret, M_ret, ret.
  rewrite get_char_pixels_run. cbn [with_rotation _text_dict]. rewrite Hchar.
  fold (letter_frame char).
  rewrite set_pixels_frame;
    [reflexivity | apply recolour_shape8, letter_frame_shape8, Hg
    | apply recolour_ok; assumption | exact Hmem].
Qed.

(** C10: [show_letter] with the empty string raises nothing and shows the
    glyph stored for '?': the device then holds that glyph's frame, which
    is the outcome of [show_letter] with the string "?" itself. *)
Theorem show_letter_empty_string (self : SenseHat) (char : grid)
    (text_colour back_colour : pixel)
    (Hq : _text_dict self !! "?"%string = Some char)
    (Hg : glyph_ok char)
    (Htc : pixel_ok text_colour) (Hbc : pixel_ok back_colour)
    (Hmem : length (fb_mem self) = 128%nat) :
  exists self',
    show_letter "" text_colour back_colour self = (Ok tt, self')
    /\ fb_mem self'
       = frame_bytes (left_90 (_rotation self))
                     (recolour (letter_frame char) text_colour back_colour)
    /\ _rotation self' = _rotation self
    /\ show_letter "?" text_colour back_colour self = (Ok tt, self').
Proof.
  assert (He : char_pixels (_text_dict self) "" = Some char).
  { unfold char_pixels. cbn [String.length Nat.eqb andb]. exact Hq. }
  assert (Hm : char_pixels (_text_dict self) "?" = Some char).
  { unfold char_pixels. cbn [String.length Nat.eqb andb].
    rewrite bool_decide_eq_true_2 by (exists char; exact Hq). exact Hq. }
  pose proof (show_letter_run "" char text_colour back_colour self
                (Nat.le_0_l 1) He Hg Htc Hbc Hmem) as Hrun_e.
  pose proof (show_letter_run "?" char text_colour back_colour self
                (Nat.le_refl 1) Hm Hg Htc Hbc Hmem) as Hrun_m.
  cbv zeta in Hrun_e, Hrun_m.
  eexists. split; [exact Hrun_e|].
  split; [reflexivity|]. split; [reflexivity|]. exact Hrun_m.
Qed.

Lemma show_letter_empty_string_witness :
  exists self',
    show_letter "" white (0, 0, 0) sample_hat = (Ok tt, self')
    /\ fb_mem self'
       = frame_bytes (left_90 (_rotation sample_hat))
                     (recolour (letter_frame sample_glyph) white (0, 0, 0))
    /\ _rotation self' = _rotation sample_hat
    /\ show_letter "?" white (0, 0, 0) sample_hat = (Ok tt, self').
Proof.
  apply (show_letter_empty_string sample_hat sample_glyph white (0, 0, 0)).
  - reflexivity.
  - exact sample_glyph_ok.
  - unfold pixel_ok, chan_ok, white. lia.
  - unfold pixel_ok, chan_ok. lia.
  - reflexivity.
Defined.

(** C9: a glyph pixel (255, 0, 0), which is not pure white, is given the
    text colour and not the back colour, by [show_letter] (row 2, column 3
    of the frame) and by [show_message] (row 8, column 3 of the strip). *)
Theorem recolour_paints_partial_white :
  let text_colour := (0, 0, 248) in
  let back_colour := (0, 0, 0) in
  let d := _text_dict tinted_hat in
  at2 (letter_frame tinted_glyph) 2 3 = Some (255, 0, 0)
  /\ at2 (recolour (letter_frame tinted_glyph) text_colour back_colour) 2 3
     = Some text_colour
  /\ trace (snd (show_letter "?" text_colour back_colour tinted_hat))
     = [EvWrite 0 (frame_bytes 270 (recolour (letter_frame tinted_glyph)
                                             text_colour back_colour))]
  /\ at2 (scroll_strip d "?") 8 3 = Some (255, 0, 0)
  /\ at2 (recolour (scroll_strip d "?") text_colour back_colour) 8 3
     = Some text_colour.
Proof. vm_compute. repeat split. Qed.

(** ** Frames written and read back *)

Lemma turned_inverse r m :
  rotation_ok r -> shape8 m ->
  turned r ((360 - r) / 90) (turned r (r / 90) m) = m.
Proof.
  intros Hr Hm. unfold turned.
  destruct Hr as [-> | [-> | [-> | ->]]].
  - reflexivity.
  - change (0 <? 90) with true. cbv iota.
    change ((360 - 90) / 90) with (4 - 1). change (90 / 90) with 1.
    apply rot90_inverse, Hm.
  - change (0 <? 180) with true. cbv iota.
    change ((360 - 180) / 90) with (4 - 2). change (180 / 90) with 2.
    apply rot90_inverse, Hm.
  - change (0 <? 270) with true. cbv iota.
    change ((360 - 270) / 90) with (4 - 3). change (270 / 90) with 3.
    apply rot90_inverse, Hm.
Qed.

Lemma rows_of_map (f : pixel -> pixel) w h : forall a,
  rows_of w h (map f a) = map (map f) (rows_of w h a).
Proof.
  induction h as [|h IH]; intros a; [reflexivity|].
  cbn [rows_of map]. rewrite <- IH, firstn_map, skipn_map. reflexivity.
Qed.

Lemma rot90_map (f : pixel -> pixel) m k :
  shape8 m -> rot90 (map (map f) m) k = map (map f) (rot90 m k).
Proof.
  intros Hm.
  rewrite (rot90_mod (map (map f) m)), (rot90_mod m).
  pose proof (Z.mod_pos_bound k 4 ltac:(lia)) as Hk.
  assert (Hc : k mod 4 = 0 \/ k mod 4 = 1 \/ k mod 4 = 2 \/ k mod 4 = 3) by lia.
  destruct Hc as [-> | [-> | [-> | ->]]];
    revert m Hm; apply shape8_cases; reflexivity.
Qed.

Lemma turned_map (f : pixel -> pixel) r k m :
  shape8 m -> turned r k (map (map f) m) = map (map f) (turned r k m).
Proof.
  intros Hm. unfold turned. destruct (0 <? r); [apply rot90_map, Hm|reflexivity].
Qed.

Lemma flat_map_map (f : pixel -> pixel) (m : grid) :
  flat (map (map f) m) = map f (flat m).
Proof.
  unfold flat. induction m as [|row m IH]; [reflexivity|].
  cbn [map]. rewrite !mjoin_cons, map_app, IH. reflexivity.
Qed.

Lemma shown_turned r m :
  rotation_ok r -> shape8 m -> shown r (flat (turned r (r / 90) m)) = flat m.
Proof.
  intros Hr Hm. unfold shown.
  rewrite rows_of_flat by (apply turned_shape8, Hm).
  rewrite turned_inverse by assumption. reflexivity.
Qed.

(** X1: at every supported rotation, [get_pixels] after [set_pixels] of 64
    valid pixels returns those pixels quantized, in the order given. *)
Theorem set_pixels_get_pixels (self : SenseHat) (a : list pixel)
    (Hrot : rotation_ok (_rotation self))
    (Hlen : length a = 64%nat) (Hok : Forall pixel_ok a)
    (Hmem : length (fb_mem self) = 128%nat) :
  exists self',
    set_pixels a self = (Ok tt, self')
    /\ get_pixels self' = (Ok (map quantize a), self')
    /\ _rotation self' = _rotation self.
Proof.
  pose proof (set_pixels_ok a self Hlen Hok Hmem) as Hset. cbv zeta in Hset.
  set (r := _rotation self) in *.
  set (m := turned r (r / 90) (rows_of 8 8 a)) in *.
  pose proof (rows_of_shape8 a Hlen) as Hsa.
  assert (Hsm : shape8 m) by (apply turned_shape8, Hsa).
  eexists. split; [exact Hset|]. split; [|reflexivity].
  assert (Hm_ok : Forall (Forall pixel_ok) m)
    by (apply turned_Forall; [exact Hsa | apply Forall_rows_of, Hok]).
  rewrite (get_pixels_unpacked _ (map quantize (flat m))).
  - f_equal. f_equal. cbn [_rotation]. fold r.
    rewrite <- flat_map_map.
    unfold m at 1. rewrite <- turned_map by exact Hsa.
    fold (shown r (flat (turned r (r / 90) (map (map quantize) (rows_of 8 8 a))))).
    rewrite shown_turned; [|exact Hrot|].
    + rewrite flat_map_map, flat_rows_of_64 by exact Hlen. reflexivity.
    + rewrite <- rows_of_map. apply rows_of_shape8.
      rewrite length_map. exact Hlen.
  - cbn [fb_mem]. rewrite pack_bin_length, flat_length; [reflexivity|exact Hsm].
  - cbn [fb_mem]. apply unpack_pack_bin, Hm_ok.
  - rewrite length_map. apply flat_length, Hsm.
Qed.

Lemma set_pixels_get_pixels_witness :
  let self := with_rotation 270 sample_hat in
  let a := (200, 130, 7) :: replicate 63 (255, 255, 255) in
  exists self',
    set_pixels a self = (Ok tt, self')
    /\ get_pixels self' = (Ok (map quantize a), self')
    /\ _rotation self' = _rotation self.
Proof.
  intros self a. apply (set_pixels_get_pixels self a).
  - right; right; right. reflexivity.
  - reflexivity.
  - apply Forall_cons_2; [unfold pixel_ok, chan_ok; lia|].
    apply Forall_replicate. unfold pixel_ok, chan_ok. lia.
  - reflexivity.
Defined.

(** What [get_pixels] returns on a 128-byte device. *)
Lemma get_pixels_run self :
  length (fb_mem self) = 128%nat -> Forall chan_ok (fb_mem self) ->
  exists px,
    get_pixels self = (Ok px, self)
    /\ length px = 64%nat /\ Forall on_device px.
Proof.
  intros Hmem Hbytes.
  destruct (unpack_bytes 64 (fb_mem self) Hmem Hbytes) as (px0 & Hpx0 & Hlen0 & Hdev0).
  exists (shown (_rotation self) px0).
  split; [exact (get_pixels_unpacked self px0 Hmem Hpx0 Hlen0)|].
  apply shown_props; assumption.
Qed.

(** X2: [get_pixels] on the 128-byte device never fails and never changes
    the device or the object; it returns 64 pixels whose channels are in
    [0,255], red and blue multiples of 8 and green a multiple of 4,
    whatever the rotation field holds. *)
Theorem get_pixels_invariant (self : SenseHat)
    (Hmem : length (fb_mem self) = 128%nat)
    (Hbytes : Forall chan_ok (fb_mem self)) :
  exists px,
    get_pixels self = (Ok px, self)
    /\ length px = 64%nat
    /\ Forall (fun p : pixel =>
                 let '(r, g, b) := p in
                 (0 <= r <= 248 /\ r mod 8 = 0)
                 /\ (0 <= g <= 252 /\ g mod 4 = 0)
                 /\ (0 <= b <= 248 /\ b mod 8 = 0)) px.
Proof.
  destruct (get_pixels_run self Hmem Hbytes) as (px & Hrun & Hlen & Hdev).
  exists px. split; [exact Hrun|]. split; [exact Hlen|].
  eapply Forall_impl; [exact Hdev|].
  intros [[r g] b] [(Hr & Hg & Hb) Hq]. unfold quantize in Hq.
  rewrite (land_F8 r Hr), (land_FC g Hg), (land_F8 b Hb) in Hq.
  inversion Hq as [[E1 E2 E3]]. unfold chan_ok in *.
  rewrite E1, E2, E3.
  repeat split; try lia; Z.div_mod_to_equations; lia.
Qed.

Lemma get_pixels_invariant_witness :
  exists px,
    get_pixels (with_rotation 180 (mkSenseHat (replicate 128 255) 0 ∅ []))
    = (Ok px, with_rotation 180 (mkSenseHat (replicate 128 255) 0 ∅ []))
    /\ length px = 64%nat.
Proof.
  destruct (get_pixels_invariant
              (with_rotation 180 (mkSenseHat (replicate 128 255) 0 ∅ [])))
    as (px & Hrun & Hlen & _).
  - reflexivity.
  - apply Forall_replicate. unfold chan_ok. lia.
  - exists px. split; assumption.
Defined.

(** ** Rotation changes *)

(** X3: [set_rotation] to any supported rotation, with redraw, keeps the
    picture: it succeeds from any 128-byte frame and any earlier rotation,
    sets the rotation field, stores the picture turned for the new rotation,
    and [get_pixels] returns the same 64 pixels as before. *)
Theorem set_rotation_keeps_picture (self : SenseHat) (r : Z)
    (Hr : rotation_ok r)
    (Hmem : length (fb_mem self) = 128%nat)
    (Hbytes : Forall chan_ok (fb_mem self)) :
  exists px self',
    get_pixels self = (Ok px, self)
    /\ set_rotation r true self = (Ok tt, self')
    /\ _rotation self' = r
    /\ fb_mem self' = frame_bytes r (rows_of 8 8 px)
    /\ get_pixels self' = (Ok px, self').
Proof.
  destruct (get_pixels_run self Hmem Hbytes) as (px & Hget & Hlen & Hdev).
  pose proof (rows_of_shape8 px Hlen) as Hs.
  pose proof (Forall_rows_of on_device 8 8 px Hdev) as Hd.
  set (m := turned r (r / 90) (rows_of 8 8 px)).
  assert (Hsm : shape8 m) by (apply turned_shape8, Hs).
  assert (Hdm : Forall (Forall on_device) m) by (apply turned_Forall; assumption).
  exists px. eexists.
  split; [exact Hget|]. split.
  { rewrite (set_rotation_redraw r self px Hr Hget).
    apply set_pixels_ok; [exact Hlen | apply on_device_ok, Hdev | exact Hmem]. }
  split; [reflexivity|]. split; [reflexivity|].
  cbn [with_rotation _rotation fb_mem].
  rewrite (get_pixels_packed _ m); [|reflexivity|exact Hsm|exact Hdm].
  f_equal. f_equal. cbn [_rotation]. unfold m.
  rewrite shown_turned by assumption. apply flat_rows_of_64, Hlen.
Qed.

Lemma set_rotation_keeps_picture_witness :
  let self := mkSenseHat (replicate 128 170) 90 ∅ [] in
  exists px self',
    get_pixels self = (Ok px, self)
    /\ set_rotation 180 true self = (Ok tt, self')
    /\ _rotation self' = 180
    /\ fb_mem self' = frame_bytes 180 (rows_of 8 8 px)
    /\ get_pixels self' = (Ok px, self').
Proof.
  intros self. apply (set_rotation_keeps_picture self 180).
  - right; right; left. reflexivity.
  - reflexivity.
  - apply Forall_replicate. unfold chan_ok. lia.
Defined.

Lemma rotation_ok_decide r :
  bool_decide (r ∈ [0; 90; 180; 270]) = true <-> rotation_ok r.
Proof.
  rewrite bool_decide_eq_true. unfold rotation_ok.
  rewrite !elem_of_cons, elem_of_nil. tauto.
Qed.

(** [set_rotation] without redraw only assigns the rotation field, and
    [set_rotation] with a value other than 0, 90, 180 and 270 raises
    [ValueError] and changes nothing, with or without redraw. *)
Theorem set_rotation_field_only (self : SenseHat) (r : Z) :
  (rotation_ok r ->
   set_rotation r false self = (Ok tt, with_rotation r self))
  /\ (~ rotation_ok r ->
      forall redraw, set_rotation r redraw self = (Raise ValueError, self)).
Proof.
  split.
  - intros Hr. unfold set_rotation.
    rewrite (proj2 (rotation_ok_decide r) Hr). reflexivity.
  - intros Hr redraw. unfold set_rotation.
    destruct (bool_decide (r ∈ [0; 90; 180; 270])) eqn:E; [|reflexivity].
    apply rotation_ok_decide in E. contradiction.
Qed.

Lemma set_rotation_field_only_witness :
  set_rotation 270 false sample_hat = (Ok tt, with_rotation 270 sample_hat)
  /\ set_rotation 45 true sample_hat = (Raise ValueError, sample_hat).
Proof.
  destruct (set_rotation_field_only sample_hat 270) as [H1 _].
  destruct (set_rotation_field_only sample_hat 45) as [_ H2].
  split.
  - apply H1. right; right; right. reflexivity.
  - apply H2. unfold rotation_ok. lia.
Defined.

(** ** The codec on whole byte strings *)

Lemma pack16_unpack16 w : 0 <= w < 65536 -> pack16 (unpack16 w) = w.
Proof.
  intros Hw. apply Z.eqb_eq.
  apply (all_from_spec (Z.to_nat 65536) 0 (fun w => pack16 (unpack16 w) =? w));
    [vm_compute; reflexivity | lia].
Qed.

Lemma bytes_of_word lo hi :
  chan_ok lo -> chan_ok hi -> bytes_of_u16 (lo + 256 * hi) = [lo; hi].
Proof.
  unfold chan_ok, bytes_of_u16. intros Hlo Hhi. f_equal; [|f_equal].
  - symmetry. apply (Z.mod_unique _ _ hi lo); lia.
  - symmetry. apply (Z.div_unique _ _ hi lo); lia.
Qed.

Lemma pack_unpack_bytes : forall n mem px,
  length mem = (2 * n)%nat -> Forall chan_ok mem ->
  _unpack_bin mem = Ok px ->
  mjoin (map (fun p => bytes_of_u16 (pack16 p)) px) = mem.
Proof.
  unfold _unpack_bin.
  induction n as [|n IH]; intros mem px Hlen Hmem Hpx.
  - destruct mem; [|discriminate]. inversion Hpx. reflexivity.
  - destruct mem as [|lo [|hi mem]]; try (exfalso; simpl in Hlen; lia).
    apply Forall_cons in Hmem as [Hlo Hmem].
    apply Forall_cons in Hmem as [Hhi Hmem].
    cbn [fromstring_u16] in Hpx.
    destruct (fromstring_u16 mem) as [ws|e] eqn:E; [|discriminate].
    inversion Hpx; subst px. cbn [map]. rewrite mjoin_cons.
    rewrite (IH mem (map unpack16 ws));
      [|simpl in Hlen; lia|exact Hmem|rewrite E; reflexivity].
    rewrite pack16_unpack16 by (unfold chan_ok in *; lia).
    rewrite (bytes_of_word lo hi Hlo Hhi). reflexivity.
Qed.

Lemma turned_inverse_back r m :
  rotation_ok r -> shape8 m ->
  turned r (r / 90) (turned r ((360 - r) / 90) m) = m.
Proof.
  intros Hr Hm. unfold turned.
  destruct Hr as [-> | [-> | [-> | ->]]].
  - reflexivity.
  - change (0 <? 90) with true. cbv iota.
    change ((360 - 90) / 90) with 3. change (90 / 90) with (4 - 3).
    apply rot90_inverse, Hm.
  - change (0 <? 180) with true. cbv iota.
    change ((360 - 180) / 90) with 2. change (180 / 90) with (4 - 2).
    apply rot90_inverse, Hm.
  - change (0 <? 270) with true. cbv iota.
    change ((360 - 270) / 90) with 1. change (270 / 90) with (4 - 1).
    apply rot90_inverse, Hm.
Qed.

(** X5: decoding loses nothing of what the device holds: writing back with
    [set_pixels] the pixels [get_pixels] has just returned stores the very
    same 128 bytes, at every supported rotation. *)
Theorem redraw_same_bytes (self : SenseHat)
    (Hrot : rotation_ok (_rotation self))
    (Hmem : length (fb_mem self) = 128%nat)
    (Hbytes : Forall chan_ok (fb_mem self)) :
  exists px self',
    get_pixels self = (Ok px, self)
    /\ set_pixels px self = (Ok tt, self')
    /\ fb_mem self' = fb_mem self.
Proof.
  destruct (unpack_bytes 64 (fb_mem self) Hmem Hbytes) as (px0 & Hpx0 & Hlen0 & Hdev0).
  pose proof (get_pixels_unpacked self px0 Hmem Hpx0 Hlen0) as Hget.
  fold (shown (_rotation self) px0) in Hget.
  destruct (shown_props (_rotation self) px0 Hlen0 Hdev0) as [HlenL HdevL].
  exists (shown (_rotation self) px0). eexists.
  split; [exact Hget|]. split.
  { apply set_pixels_ok; [exact HlenL | apply on_device_ok, HdevL | exact Hmem]. }
  cbn [fb_mem]. unfold shown.
  pose proof (rows_of_shape8 px0 Hlen0) as Hs.
  rewrite rows_of_flat by (apply turned_shape8, Hs).
  rewrite turned_inverse_back by assumption.
  rewrite pack_bin_flat, flat_rows_of_64 by exact Hlen0.
  apply (pack_unpack_bytes 64); assumption.
Qed.

Lemma redraw_same_bytes_witness :
  let self := mkSenseHat (replicate 128 85) 90 ∅ [] in
  exists px self',
    get_pixels self = (Ok px, self)
    /\ set_pixels px self = (Ok tt, self')
    /\ fb_mem self' = fb_mem self.
Proof.
  intros self. apply (redraw_same_bytes self).
  - right; left. reflexivity.
  - reflexivity.
  - apply Forall_replicate. unfold chan_ok. lia.
Defined.

Lemma pack16_quantize p : pixel_ok p -> pack16 (quantize p) = pack16 p.
Proof.
  destruct p as [[r g] b]. intros Hp.
  pose proof (quantize_ok (r, g, b) Hp) as Hq.
  unfold quantize in *.
  rewrite (pack16_fields _ _ _ Hq), (pack16_fields _ _ _ Hp).
  destruct Hp as (Hr & Hg & Hb).
  rewrite (land_F8 r Hr), (land_FC g Hg), (land_F8 b Hb).
  assert (E1 : 8 * (r / 8) / 8 = r / 8) by (rewrite Z.mul_comm; apply Z.div_mul; lia).
  assert (E2 : 4 * (g / 4) / 4 = g / 4) by (rewrite Z.mul_comm; apply Z.div_mul; lia).
  assert (E3 : 8 * (b / 8) / 8 = b / 8) by (rewrite Z.mul_comm; apply Z.div_mul; lia).
  rewrite E1, E2, E3. reflexivity.
Qed.

(** X6: two valid pixels are written as the same two bytes exactly when
    they agree on the top five bits of red and blue and the top six bits of
    green; the bytes are byte values. *)
Theorem encode_eq_iff (p q : pixel) (Hp : pixel_ok p) (Hq : pixel_ok q) :
  (encode p = encode q <-> quantize p = quantize q)
  /\ length (encode p) = 2%nat
  /\ Forall chan_ok (encode p).
Proof.
  split; [split|split].
  - intros E.
    pose proof (decode_encode p Hp) as H1.
    pose proof (decode_encode q Hq) as H2.
    rewrite E in H1. congruence.
  - intros E. unfold encode, _pack_bin. cbn [map].
    rewrite <- (pack16_quantize p Hp), <- (pack16_quantize q Hq), E. reflexivity.
  - reflexivity.
  - unfold encode, _pack_bin. cbn [map mjoin list_join app bytes_of_u16].
    pose proof (pack16_range p) as Hw. unfold chan_ok.
    repeat apply Forall_cons_2; try apply Forall_nil_2;
      Z.div_mod_to_equations; lia.
Qed.

Lemma encode_eq_iff_witness :
  encode (200, 130, 7) = encode (207, 131, 0).
Proof.
  assert (Hp : pixel_ok (200, 130, 7)) by (unfold pixel_ok, chan_ok; lia).
  assert (Hq : pixel_ok (207, 131, 0)) by (unfold pixel_ok, chan_ok; lia).
  apply (proj1 (encode_eq_iff (200, 130, 7) (207, 131, 0) Hp Hq)).
  reflexivity.
Defined.

(** ** Flips *)

Lemma get_pixels_showing self m :
  rotation_ok (_rotation self) -> shape8 m -> Forall (Forall on_device) m ->
  get_pixels (hat_showing self m) = (Ok (flat m), hat_showing self m).
Proof.
  intros Hr Hs Hd.
  rewrite (get_pixels_packed _ (turned (_rotation self) (_rotation self / 90) m));
    [|reflexivity|apply turned_shape8, Hs|apply turned_Forall; assumption].
  cbn [hat_showing _rotation]. rewrite shown_turned by assumption. reflexivity.
Qed.

Lemma fliplr_shape8 m : shape8 m -> shape8 (fliplr m).
Proof.
  revert m. apply shape8_cases. intros. split; [reflexivity|repeat constructor].
Qed.

Lemma flipud_shape8 m : shape8 m -> shape8 (flipud m).
Proof.
  revert m. apply shape8_cases. intros. split; [reflexivity|repeat constructor].
Qed.

Lemma fliplr_Forall (Q : pixel -> Prop) m :
  Forall (Forall Q) m -> Forall (Forall Q) (fliplr m).
Proof.
  intros H. unfold fliplr. rewrite Forall_map.
  eapply Forall_impl; [exact H|]. intros row Hrow. cbv beta.
  apply Forall_reverse, Hrow.
Qed.

Lemma flipud_Forall (Q : pixel -> Prop) m :
  Forall (Forall Q) m -> Forall (Forall Q) (flipud m).
Proof. intros H. unfold flipud. apply Forall_reverse, H. Qed.

Lemma fliplr_involutive m : shape8 m -> fliplr (fliplr m) = m.
Proof. revert m. apply shape8_cases. reflexivity. Qed.

Lemma flipud_involutive m : shape8 m -> flipud (flipud m) = m.
Proof. revert m. apply shape8_cases. reflexivity. Qed.

Ltac each_coord x y :=
  do 8 (destruct x as [|x];
        [do 8 (destruct y as [|y]; [reflexivity|]); exfalso; lia|]);
  exfalso; lia.

Lemma fliplr_lookup m : shape8 m ->
  forall x y : nat, (x < 8)%nat -> (y < 8)%nat ->
  flat (fliplr m) !! (8 * y + x)%nat = flat m !! (8 * y + (7 - x))%nat.
Proof.
  intros Hm. pattern m. revert m Hm. apply shape8_cases. cbv beta.
  intros. each_coord x y.
Qed.

Lemma flipud_lookup m : shape8 m ->
  forall x y : nat, (x < 8)%nat -> (y < 8)%nat ->
  flat (flipud m) !! (8 * y + x)%nat = flat m !! (8 * (7 - y) + x)%nat.
Proof.
  intros Hm. pattern m. revert m Hm. apply shape8_cases. cbv beta.
  intros. each_coord x y.
Qed.

(** A flip, with [f] for [np.fliplr] or [np.flipud]. *)
Lemma flip_run (f : grid -> grid) (redraw : bool) self px :
  get_pixels self = (Ok px, self) ->
  length px = 64%nat -> Forall on_device px ->
  (forall m, shape8 m -> shape8 (f m)) ->
  (forall m, Forall (Forall on_device) m -> Forall (Forall on_device) (f m)) ->
  length (fb_mem self) = 128%nat ->
  (pixel_list ← get_pixels;
   pixel_list ← ret (rows_of 8 8 pixel_list);
   flipped ← ret (f pixel_list);
   (if redraw then set_pixels (flat flipped) else ret tt);;
   ret (flat flipped)) self
  = (Ok (flat (f (rows_of 8 8 px))),
     if redraw then hat_showing self (f (rows_of 8 8 px)) else self).
Proof.
  intros Hget Hlen Hdev Hshape Hall Hmem.
  unfold mbind, M_bind, bind, mret, M_ret, ret. rewrite Hget.
  destruct redraw; [|reflexivity].
  rewrite set_pixels_frame; [reflexivity| | |exact Hmem].
  - apply Hshape, rows_of_shape8, Hlen.
  - eapply Forall_impl; [apply Hall, Forall_rows_of, Hdev|].
    intros row. apply on_device_ok.
Qed.

(** X7: on the 128-byte device at a supported rotation, [flip_h] with
    redraw returns and shows the picture mirrored left to right (the pixel
    at column x of a row is the old pixel at column 7 - x of that row), and
    a second [flip_h] returns and shows the first picture again. *)
Theorem flip_h_mirrors (self : SenseHat)
    (Hrot : rotation_ok (_rotation self))
    (Hmem : length (fb_mem self) = 128%nat)
    (Hbytes : Forall chan_ok (fb_mem self)) :
  exists px px' self1 self2,
    get_pixels self = (Ok px, self)
    /\ flip_h true self = (Ok px', self1)
    /\ get_pixels self1 = (Ok px', self1)
    /\ (forall x y : nat, (x < 8)%nat -> (y < 8)%nat ->
          px' !! (8 * y + x)%nat = px !! (8 * y + (7 - x))%nat)
    /\ flip_h true self1 = (Ok px, self2)
    /\ get_pixels self2 = (Ok px, self2).
Proof.
  destruct (get_pixels_run self Hmem Hbytes) as (px & Hget & Hlen & Hdev).
  pose proof (rows_of_shape8 px Hlen) as Hs.
  pose proof (Forall_rows_of on_device 8 8 px Hdev) as Hd.
  set (m' := fliplr (rows_of 8 8 px)).
  assert (Hs' : shape8 m') by (apply fliplr_shape8, Hs).
  assert (Hd' : Forall (Forall on_device) m') by (apply fliplr_Forall, Hd).
  set (self1 := hat_showing self m').
  assert (Hget1 : get_pixels self1 = (Ok (flat m'), self1))
    by (apply get_pixels_showing; assumption).
  assert (Hback : fliplr (rows_of 8 8 (flat m')) = rows_of 8 8 px).
  { rewrite rows_of_flat by exact Hs'. apply fliplr_involutive, Hs. }
  exists px, (flat m'), self1, (hat_showing self1 (rows_of 8 8 px)).
  split; [exact Hget|]. split.
  { exact (flip_run fliplr true self px Hget Hlen Hdev fliplr_shape8
             (fliplr_Forall on_device) Hmem). }
  split; [exact Hget1|]. split.
  { intros x y Hx Hy. unfold m'. rewrite (fliplr_lookup _ Hs x y Hx Hy).
    rewrite flat_rows_of_64 by exact Hlen. reflexivity. }
  assert (Hflat : flat (rows_of 8 8 px) = px) by (apply flat_rows_of_64, Hlen).
  split.
  - pose proof (flip_run fliplr true self1 (flat m') Hget1
                  (flat_length m' Hs') (Forall_flat _ _ Hd') fliplr_shape8
                  (fliplr_Forall on_device)) as Hrun.
    rewrite Hback, Hflat in Hrun. apply Hrun.
    apply frame_bytes_length, Hs'.
  - rewrite get_pixels_showing; [rewrite Hflat; reflexivity|exact Hrot|exact Hs|exact Hd].
Qed.

(** X8: the same for [flip_v], which mirrors top to bottom: the pixel at
    row y of a column is the old pixel at row 7 - y of that column. *)
Theorem flip_v_mirrors (self : SenseHat)
    (Hrot : rotation_ok (_rotation self))
    (Hmem : length (fb_mem self) = 128%nat)
    (Hbytes : Forall chan_ok (fb_mem self)) :
  exists px px' self1 self2,
    get_pixels self = (Ok px, self)
    /\ flip_v true self = (Ok px', self1)
    /\ get_pixels self1 = (Ok px', self1)
    /\ (forall x y : nat, (x < 8)%nat -> (y < 8)%nat ->
          px' !! (8 * y + x)%nat = px !! (8 * (7 - y) + x)%nat)
    /\ flip_v true self1 = (Ok px, self2)
    /\ get_pixels self2 = (Ok px, self2).
Proof.
  destruct (get_pixels_run self Hmem Hbytes) as (px & Hget & Hlen & Hdev).
  pose proof (rows_of_shape8 px Hlen) as Hs.
  pose proof (Forall_rows_of on_device 8 8 px Hdev) as Hd.
  set (m' := flipud (rows_of 8 8 px)).
  assert (Hs' : shape8 m') by (apply flipud_shape8, Hs).
  assert (Hd' : Forall (Forall on_device) m') by (apply flipud_Forall, Hd).
  set (self1 := hat_showing self m').
  assert (Hget1 : get_pixels self1 = (Ok (flat m'), self1))
    by (apply get_pixels_showing; assumption).
  assert (Hback : flipud (rows_of 8 8 (flat m')) = rows_of 8 8 px).
  { rewrite rows_of_flat by exact Hs'. apply flipud_involutive, Hs. }
  exists px, (flat m'), self1, (hat_showing self1 (rows_of 8 8 px)).
  split; [exact Hget|]. split.
  { exact (flip_run flipud true self px Hget Hlen Hdev flipud_shape8
             (flipud_Forall on_device) Hmem). }
  split; [exact Hget1|]. split.
  { intros x y Hx Hy. unfold m'. rewrite (flipud_lookup _ Hs x y Hx Hy).
    rewrite flat_rows_of_64 by exact Hlen. reflexivity. }
  assert (Hflat : flat (rows_of 8 8 px) = px) by (apply flat_rows_of_64, Hlen).
  split.
  - pose proof (flip_run flipud true self1 (flat m') Hget1
                  (flat_length m' Hs') (Forall_flat _ _ Hd') flipud_shape8
                  (flipud_Forall on_device)) as Hrun.
    rewrite Hback, Hflat in Hrun. apply Hrun.
    apply frame_bytes_length, Hs'.
  - rewrite get_pixels_showing; [rewrite Hflat; reflexivity|exact Hrot|exact Hs|exact Hd].
Qed.

(** X9: without redraw, [flip_h] and [flip_v] return the mirrored picture
    and leave the device and the object as they are. *)
Theorem flip_without_redraw (self : SenseHat)
    (Hmem : length (fb_mem self) = 128%nat)
    (Hbytes : Forall chan_ok (fb_mem self)) :
  exists px,
    get_pixels self = (Ok px, self)
    /\ flip_h false self = (Ok (flat (fliplr (rows_of 8 8 px))), self)
    /\ flip_v false self = (Ok (flat (flipud (rows_of 8 8 px))), self).
Proof.
  destruct (get_pixels_run self Hmem Hbytes) as (px & Hget & Hlen & Hdev).
  exists px. split; [exact Hget|]. split.
  - exact (flip_run fliplr false self px Hget Hlen Hdev fliplr_shape8
             (fliplr_Forall on_device) Hmem).
  - exact (flip_run flipud false self px Hget Hlen Hdev flipud_shape8
             (flipud_Forall on_device) Hmem).
Qed.

Lemma flip_h_mirrors_witness :
  let self := mkSenseHat (replicate 128 51) 90 ∅ [] in
  exists px px' self1 self2,
    get_pixels self = (Ok px, self)
    /\ flip_h true self = (Ok px', self1)
    /\ get_pixels self1 = (Ok px', self1)
    /\ (forall x y : nat, (x < 8)%nat -> (y < 8)%nat ->
          px' !! (8 * y + x)%nat = px !! (8 * y + (7 - x))%nat)
    /\ flip_h true self1 = (Ok px, self2)
    /\ get_pixels self2 = (Ok px, self2).
Proof.
  intros self. apply (flip_h_mirrors self).
  - right; left. reflexivity.
  - reflexivity.
  - apply Forall_replicate. unfold chan_ok. lia.
Defined.

Lemma flip_v_mirrors_witness :
  let self := mkSenseHat (replicate 128 51) 180 ∅ [] in
  exists px px' self1 self2,
    get_pixels self = (Ok px, self)
    /\ flip_v true self = (Ok px', self1)
    /\ get_pixels self1 = (Ok px', self1)
    /\ (forall x y : nat, (x < 8)%nat -> (y < 8)%nat ->
          px' !! (8 * y + x)%nat = px !! (8 * (7 - y) + x)%nat)
    /\ flip_v true self1 = (Ok px, self2)
    /\ get_pixels self2 = (Ok px, self2).
Proof.
  intros self. apply (flip_v_mirrors self).
  - right; right; left. reflexivity.
  - reflexivity.
  - apply Forall_replicate. unfold chan_ok. lia.
Defined.

Lemma flip_without_redraw_witness :
  exists px,
    get_pixels sample_hat = (Ok px, sample_hat)
    /\ flip_h false sample_hat = (Ok (flat (fliplr (rows_of 8 8 px))), sample_hat)
    /\ flip_v false sample_hat = (Ok (flat (flipud (rows_of 8 8 px))), sample_hat).
Proof.
  apply (flip_without_redraw sample_hat).
  - reflexivity.
  - apply Forall_replicate. unfold chan_ok. lia.
Defined.

(** ** Clear *)

Lemma turned_uniform r k c : turned r k (uniform c) = uniform c.
Proof.
  unfold turned. destruct (0 <? r); [|reflexivity].
  apply (rot90_four (fun m => m = uniform c)); reflexivity.
Qed.

Lemma uniform_shape8 c : shape8 (uniform c).
Proof. split; [reflexivity|repeat constructor]. Qed.

Lemma uniform_Forall (Q : pixel -> Prop) c : Q c -> Forall (Forall Q) (uniform c).
Proof. intros H. apply Forall_replicate, Forall_replicate, H. Qed.

(** X10: [clear] with a valid colour, given as one sequence or as three
    integers, fills the device with the two bytes of that colour 64 times,
    whatever the rotation; [get_pixels] then returns 64 times the quantized
    colour. *)
Theorem clear_fills (self : SenseHat) (r g b : Z)
    (Hc : pixel_ok (r, g, b))
    (Hmem : length (fb_mem self) = 128%nat) :
  exists self',
    clear (ArgColour [r; g; b]) self = (Ok tt, self')
    /\ clear (ArgInts [r; g; b]) self = (Ok tt, self')
    /\ fb_mem self' = mjoin (replicate 64 (encode (r, g, b)))
    /\ get_pixels self' = (Ok (replicate 64 (quantize (r, g, b))), self').
Proof.
  assert (Hrun : set_pixels (replicate 64 (r, g, b)) self
                 = (Ok tt, hat_showing self (uniform (r, g, b)))).
  { exact (set_pixels_frame (uniform (r, g, b)) self (uniform_shape8 _)
             (uniform_Forall pixel_ok _ Hc) Hmem). }
  assert (Hbytes : frame_bytes (_rotation self) (uniform (r, g, b))
                   = _pack_bin (uniform (r, g, b))).
  { unfold frame_bytes. rewrite turned_uniform. reflexivity. }
  exists (hat_showing self (uniform (r, g, b))).
  split; [exact Hrun|]. split; [exact Hrun|]. split.
  - cbn [hat_showing fb_mem]. rewrite Hbytes. reflexivity.
  - rewrite (get_pixels_unpacked _ (map quantize (flat (uniform (r, g, b))))).
    + f_equal. f_equal.
      change (map quantize (flat (uniform (r, g, b))))
        with (flat (uniform (quantize (r, g, b)))).
      rewrite rows_of_flat by apply uniform_shape8.
      rewrite turned_uniform. reflexivity.
    + cbn [hat_showing fb_mem]. apply frame_bytes_length, uniform_shape8.
    + cbn [hat_showing fb_mem]. rewrite Hbytes.
      apply unpack_pack_bin, uniform_Forall, Hc.
    + reflexivity.
Qed.

Lemma clear_fills_witness :
  exists self',
    clear (ArgColour [10; 20; 30]) (with_rotation 90 sample_hat) = (Ok tt, self')
    /\ get_pixels self' = (Ok (replicate 64 (8, 20, 24)), self').
Proof.
  destruct (clear_fills (with_rotation 90 sample_hat) 10 20 30)
    as (self' & H1 & _ & _ & H2).
  - unfold pixel_ok, chan_ok. lia.
  - reflexivity.
  - exists self'. split; [exact H1 | exact H2].
Defined.

(** X11: [clear] without arguments writes 128 zero bytes; with a number of
    integers other than 0 and 3, with a colour sequence that has not three
    values, or with a channel that is outside [0,255] once stored as
    [uint16], it raises [ValueError] and writes nothing. *)
Theorem clear_arguments (self : SenseHat)
    (Hmem : length (fb_mem self) = 128%nat) :
  (exists self', clear (ArgInts []) self = (Ok tt, self')
                 /\ fb_mem self' = replicate 128 0)
  /\ (forall args, length args <> 0%nat -> length args <> 3%nat ->
        clear (ArgInts args) self = (Raise ValueError, self))
  /\ (forall colour, length colour <> 3%nat ->
        clear (ArgColour colour) self = (Raise ValueError, self))
  /\ (forall r g b, ~ pixel_ok (u16_pixel (r, g, b)) ->
        clear (ArgColour [r; g; b]) self = (Raise ValueError, self)
        /\ clear (ArgInts [r; g; b]) self = (Raise ValueError, self)).
Proof.
  split; [|split; [|split]].
  - assert (Hb : pixel_ok (0, 0, 0)) by (unfold pixel_ok, chan_ok; lia).
    exists (hat_showing self (uniform (0, 0, 0))). split.
    + exact (set_pixels_frame (uniform (0, 0, 0)) self (uniform_shape8 _)
               (uniform_Forall pixel_ok _ Hb) Hmem).
    + cbn [hat_showing fb_mem]. unfold frame_bytes.
      rewrite turned_uniform. reflexivity.
  - intros args H0 H3.
    destruct args as [|a [|b [|c [|d args]]]]; cbn [length] in *;
      try reflexivity; exfalso; lia.
  - intros colour H3.
    destruct colour as [|a [|b [|c [|d colour]]]]; cbn [length] in *;
      try reflexivity; exfalso; lia.
  - intros r g b Hbad.
    assert (E : set_pixels (replicate 64 (r, g, b)) self = (Raise ValueError, self)).
    { apply set_pixels_out_of_range. intros Hall.
      apply Hbad. cbn [replicate map] in Hall.
      apply Forall_cons in Hall as [H _]. exact H. }
    split; exact E.
Qed.

Lemma clear_arguments_witness :
  clear (ArgInts [1; 2]) sample_hat = (Raise ValueError, sample_hat)
  /\ clear (ArgColour [256; 0; 0]) sample_hat = (Raise ValueError, sample_hat).
Proof.
  destruct (clear_arguments sample_hat) as (_ & H1 & _ & H2); [reflexivity|].
  assert (Hbad : ~ pixel_ok (u16_pixel (256, 0, 0))).
  { unfold pixel_ok, chan_ok, u16_pixel, u16.
    change (256 mod 65536) with 256. lia. }
  split.
  - exact (H1 [1; 2] ltac:(discriminate) ltac:(discriminate)).
  - exact (proj1 (H2 256 0 0 Hbad)).
Defined.

(** ** Validation of single-pixel access *)

(** X12: [set_pixel] raises [ValueError] and leaves the device untouched
    when a coordinate is outside [0,7], when the pixel has not three values,
    or when one of its values is outside [0,255] (no value is wrapped or
    clamped); [get_pixel] does so when a coordinate is outside [0,7]. *)
Theorem pixel_access_rejects (self : SenseHat) (x y : Z) (pixel : list Z) :
  (~ coord_ok x y \/ length pixel <> 3%nat \/ ~ Forall chan_ok pixel ->
   set_pixel x y pixel self = (Raise ValueError, self))
  /\ (~ coord_ok x y -> get_pixel x y self = (Raise ValueError, self)).
Proof.
  assert (Hcoord : ~ coord_ok x y ->
                   (7 <? x) || (x <? 0) = true
                   \/ ((7 <? x) || (x <? 0) = false
                       /\ (7 <? y) || (y <? 0) = true)).
  { intros Hc. unfold coord_ok in Hc.
    destruct ((7 <? x) || (x <? 0)) eqn:Ex; [left; reflexivity|right].
    split; [reflexivity|].
    apply orb_false_iff in Ex as [E1 E2].
    apply Z.ltb_ge in E1, E2.
    apply orb_true_iff.
    destruct (7 <? y) eqn:Ey; [left; reflexivity|right].
    apply Z.ltb_ge in Ey. apply Z.ltb_lt. lia. }
  split.
  - intros Hbad. unfold set_pixel.
    destruct pixel as [|r [|g [|b [|d pixel]]]]; try reflexivity.
    destruct ((7 <? x) || (x <? 0)) eqn:Ex; [reflexivity|].
    destruct ((7 <? y) || (y <? 0)) eqn:Ey; [reflexivity|].
    destruct (existsb _ [r; g; b]) eqn:Ee; [reflexivity|].
    exfalso. destruct Hbad as [Hc | [Hl | Hv]].
    + destruct (Hcoord Hc) as [E | [_ E]]; congruence.
    + apply Hl. reflexivity.
    + apply Hv. cbn [existsb] in Ee.
      repeat (apply orb_false_iff in Ee as [? Ee]).
      repeat match goal with
             | H : _ || _ = false |- _ => apply orb_false_iff in H as [? ?]
             | H : (_ <? _) = false |- _ => apply Z.ltb_ge in H
             end.
      unfold chan_ok. repeat apply Forall_cons_2; try apply Forall_nil_2; lia.
  - intros Hc. unfold get_pixel.
    destruct (Hcoord Hc) as [E | [E1 E2]].
    + rewrite E. reflexivity.
    + rewrite E1, E2. reflexivity.
Qed.

Lemma pixel_access_rejects_witness :
  set_pixel 3 4 [65791; 0; 0] sample_hat = (Raise ValueError, sample_hat)
  /\ get_pixel 8 0 sample_hat = (Raise ValueError, sample_hat).
Proof.
  split.
  - apply (proj1 (pixel_access_rejects sample_hat 3 4 [65791; 0; 0])).
    right; right. intros H. apply Forall_cons in H as [H _].
    unfold chan_ok in H. lia.
  - apply (proj2 (pixel_access_rejects sample_hat 8 0 [])).
    unfold coord_ok. lia.
Defined.

(** ** Single pixels in the picture at rotation 0 *)






(** ** Loading the glyph store *)

Lemma glyph_blocks_length n : forall px, length (glyph_blocks n px) = n.
Proof.
  induction n as [|n IH]; intros px; [reflexivity|].
  cbn [glyph_blocks length]. rewrite IH. reflexivity.
Qed.

Lemma glyph_blocks_ok n : forall px,
  (40 * n <= length px)%nat -> Forall pixel_ok px ->
  Forall glyph_ok (glyph_blocks n px).
Proof.
  induction n as [|n IH]; intros px Hlen Hok; [constructor|].
  cbn [glyph_blocks]. constructor.
  - destruct (rows_of_shape 8 5 (take 40 px)) as [H5 H8].
    { rewrite length_take. lia. }
    split; [exact H5|].
    apply Forall_and. split; [exact H8|].
    apply Forall_rows_of, Forall_take, Hok.
  - apply IH; [rewrite length_drop; lia | apply Forall_drop, Hok].
Qed.

Lemma load_loop_run blocks : forall chars i self,
  (i + length chars <= length blocks)%nat ->
  load_loop i chars blocks self
  = (Ok tt, with_text_dict (loaded_dict i chars blocks (_text_dict self)) self).
Proof.
  induction chars as [|s chars IH]; intros i self Hlen.
  - destruct self; reflexivity.
  - cbn [load_loop loaded_dict]. cbn [length] in Hlen.
    destruct (lookup_lt_is_Some_2 blocks i) as [g Hg]; [lia|].
    rewrite Hg. unfold mbind, M_bind, bind, get_text_dict, put_text_dict.
    rewrite IH by (cbn [fb_mem]; lia). reflexivity.
Qed.

Lemma load_loop_short blocks : forall chars i self,
  (i <= length blocks)%nat -> (length blocks < i + length chars)%nat ->
  fst (load_loop i chars blocks self) = Raise IndexError.
Proof.
  induction chars as [|s chars IH]; intros i self Hi Hlen.
  - cbn [length] in Hlen. lia.
  - cbn [load_loop]. cbn [length] in Hlen.
    destruct (blocks !! i) as [g|] eqn:Hg; [|reflexivity].
    apply lookup_lt_Some in Hg.
    unfold mbind, M_bind, bind, get_text_dict, put_text_dict.
    apply IH; lia.
Qed.

Lemma loaded_dict_lookup blocks s : forall chars i d,
  (i + length chars <= length blocks)%nat ->
  (s ∉ chars -> loaded_dict i chars blocks d !! s = d !! s)
  /\ (forall k, chars !! k = Some s ->
        (forall j, (k < j)%nat -> chars !! j <> Some s) ->
        loaded_dict i chars blocks d !! s = blocks !! (i + k)%nat).
Proof.
  induction chars as [|s0 chars IH]; intros i d Hlen.
  - split; [reflexivity|]. intros k Hk. discriminate.
  - cbn [length] in Hlen. cbn [loaded_dict].
    destruct (lookup_lt_is_Some_2 blocks i) as [g Hg]; [lia|].
    rewrite Hg.
    destruct (IH (S i) (<[s0 := g]> d)) as [IH1 IH2]; [lia|].
    split.
    + intros Hnot. apply not_elem_of_cons in Hnot as [Hne Hnot].
      rewrite (IH1 Hnot). apply lookup_insert_ne. congruence.
    + intros [|k] Hk Hlast.
      * cbn in Hk. inversion Hk; subst s0.
        rewrite IH1.
        -- rewrite lookup_insert_eq, Nat.add_0_r. symmetry. exact Hg.
        -- intros Hin. apply list_elem_of_lookup in Hin as [j Hj].
           apply (Hlast (S j)); [lia | exact Hj].
      * cbn in Hk. rewrite (IH2 k Hk).
        -- f_equal. lia.
        -- intros j Hj. apply (Hlast (S j)). lia.
Qed.

Lemma reshape_glyphs_ok px :
  (length px mod 40 = 0)%nat ->
  reshape_glyphs px = Ok (glyph_blocks (length px / 40) px).
Proof.
  intros H. unfold reshape_glyphs. rewrite H. reflexivity.
Qed.

Lemma load_text_assets_run px text self :
  (length px mod 40 = 0)%nat ->
  (length (chars_of text) <= length px / 40)%nat ->
  _load_text_assets px text self
  = (Ok tt, with_text_dict
              (loaded_dict 0 (chars_of text) (glyph_blocks (length px / 40) px) ∅)
              self).
Proof.
  intros Hmod Hlen. unfold _load_text_assets, mbind, M_bind, bind, lift.
  rewrite (reshape_glyphs_ok px Hmod). unfold put_text_dict.
  rewrite load_loop_run by (rewrite glyph_blocks_length; cbn [plus]; exact Hlen).
  reflexivity.
Qed.

(** X14: loading an image of 40 * n pixels with a text of at most n
    characters succeeds, touches neither the device nor the rotation,
    forgets the earlier dictionary, and binds each character of the text to
    the 40-pixel block at the position of its last occurrence; strings that
    are not characters of the text are not bound. *)
Theorem load_text_assets_binds (self : SenseHat) (text_pixels : list pixel)
    (loaded_text : string)
    (Hmod : (length text_pixels mod 40 = 0)%nat)
    (Hlen : (length (chars_of loaded_text) <= length text_pixels / 40)%nat) :
  let blocks := glyph_blocks (length text_pixels / 40) text_pixels in
  exists self',
    _load_text_assets text_pixels loaded_text self = (Ok tt, self')
    /\ fb_mem self' = fb_mem self /\ _rotation self' = _rotation self
    /\ trace self' = trace self
    /\ (forall k s,
          chars_of loaded_text !! k = Some s ->
          (forall j, (k < j)%nat -> chars_of loaded_text !! j <> Some s) ->
          _text_dict self' !! s = blocks !! k)
    /\ (forall s, s ∉ chars_of loaded_text -> _text_dict self' !! s = None).
Proof.
  intros blocks. eexists.
  split; [exact (load_text_assets_run text_pixels loaded_text self Hmod Hlen)|].
  split; [reflexivity|]. split; [reflexivity|]. split; [reflexivity|].
  cbn [with_text_dict _text_dict]. fold blocks.
  assert (Hb : (0 + length (chars_of loaded_text) <= length blocks)%nat).
  { unfold blocks. rewrite glyph_blocks_length. exact Hlen. }
  split.
  - intros k s Hk Hlast.
    exact (proj2 (loaded_dict_lookup blocks s _ 0 ∅ Hb) k Hk Hlast).
  - intros s Hs.
    rewrite (proj1 (loaded_dict_lookup blocks s _ 0 ∅ Hb) Hs).
    apply lookup_empty.
Qed.

Lemma load_text_assets_binds_witness :
  exists self',
    _load_text_assets (replicate 40 (0, 0, 0) ++ replicate 40 white) "?A"
                      sample_hat = (Ok tt, self')
    /\ _text_dict self' !! "A"%string = Some (replicate 5 (replicate 8 white)).
Proof.
  destruct (load_text_assets_binds sample_hat
              (replicate 40 (0, 0, 0) ++ replicate 40 white) "?A")
    as (self' & Hrun & _ & _ & _ & Hbind & _).
  - reflexivity.
  - cbn. lia.
  - exists self'. split; [exact Hrun|].
    rewrite (Hbind 1%nat "A"%string).
    + reflexivity.
    + reflexivity.
    + intros [|[|j]] Hj; try lia; discriminate.
Defined.

(** X15: [_load_text_assets] raises [ValueError] and keeps the earlier
    dictionary when the number of pixels is not a multiple of 40, and raises
    [IndexError] when the text has more characters than the image has
    blocks of 40 pixels. *)
Theorem load_text_assets_errors (self : SenseHat) (text_pixels : list pixel)
    (loaded_text : string) :
  ((length text_pixels mod 40 <> 0)%nat ->
   _load_text_assets text_pixels loaded_text self = (Raise ValueError, self))
  /\ ((length text_pixels mod 40 = 0)%nat ->
      (length text_pixels / 40 < length (chars_of loaded_text))%nat ->
      fst (_load_text_assets text_pixels loaded_text self) = Raise IndexError).
Proof.
  split.
  - intros Hmod. unfold _load_text_assets, mbind, M_bind, bind, lift, reshape_glyphs.
    destruct (length text_pixels mod 40 =? 0)%nat eqn:E; [|reflexivity].
    apply Nat.eqb_eq in E. contradiction.
  - intros Hmod Hlen. unfold _load_text_assets, mbind, M_bind, bind, lift.
    rewrite (reshape_glyphs_ok text_pixels Hmod). unfold put_text_dict.
    pose proof (load_loop_short (glyph_blocks (length text_pixels / 40) text_pixels)
                  (chars_of loaded_text) 0
                  (mkSenseHat (fb_mem self) (_rotation self) ∅ (trace self))) as H.
    rewrite glyph_blocks_length in H.
    specialize (H ltac:(lia) ltac:(cbn [plus]; exact Hlen)).
    destruct (load_loop 0 _ _ _) as [[[]|e] s]; cbn [fst] in H;
      [discriminate | inversion H; reflexivity].
Qed.

Lemma load_text_assets_errors_witness :
  _load_text_assets (replicate 41 white) "?" sample_hat
    = (Raise ValueError, sample_hat)
  /\ fst (_load_text_assets (replicate 40 white) "?A" sample_hat)
     = Raise IndexError.
Proof.
  split.
  - apply (proj1 (load_text_assets_errors sample_hat (replicate 41 white) "?")).
    cbn. lia.
  - apply (proj2 (load_text_assets_errors sample_hat (replicate 40 white) "?A")).
    + reflexivity.
    + cbn. lia.
Defined.

Lemma chars_of_length1 text s : s ∈ chars_of text -> String.length s = 1%nat.
Proof.
  induction text as [|c text IH]; cbn [chars_of]; intros H.
  - apply elem_of_nil in H. contradiction.
  - apply elem_of_cons in H as [-> | H]; [reflexivity | exact (IH H)].
Qed.

Lemma loaded_dict_glyphs blocks : forall chars i d,
  Forall glyph_ok blocks ->
  (forall k g, d !! k = Some g -> glyph_ok g) ->
  forall k g, loaded_dict i chars blocks d !! k = Some g -> glyph_ok g.
Proof.
  induction chars as [|s chars IH]; intros i d Hb Hd; [exact Hd|].
  cbn [loaded_dict]. destruct (blocks !! i) as [g0|] eqn:Hg; [|exact Hd].
  apply IH; [exact Hb|].
  intros k g Hk. destruct (decide (s = k)) as [->|Hne].
  - rewrite lookup_insert_eq in Hk. inversion Hk; subst.
    rewrite Forall_forall in Hb. apply Hb.
    apply list_elem_of_lookup. exists i. exact Hg.
  - rewrite lookup_insert_ne in Hk by exact Hne. exact (Hd k g Hk).
Qed.

Lemma last_occurrence (s : string) : forall l : list string,
  s ∈ l ->
  exists k, l !! k = Some s /\ forall j, (k < j)%nat -> l !! j <> Some s.
Proof.
  induction l as [|a l IH]; intros Hin.
  - apply elem_of_nil in Hin. contradiction.
  - destruct (decide (s ∈ l)) as [Hl|Hl].
    + destruct (IH Hl) as (k & Hk & Hlast).
      exists (S k). split; [exact Hk|].
      intros [|j] Hj; [lia|]. apply Hlast. lia.
    + apply elem_of_cons in Hin as [-> | Hin]; [|contradiction].
      exists 0%nat. split; [reflexivity|].
      intros [|j] Hj; [lia|]. intros Hs. apply Hl.
      apply list_elem_of_lookup. exists j. exact Hs.
Qed.

(** X16: after loading a text that contains '?', the store satisfies what
    the renderer relies on (a fallback glyph, every glyph 5 x 8 with 8-bit
    channels), and [_get_char_pixels] never raises: it returns the block of
    a character of the text, and the block of '?' for every other string,
    among them the empty string and every string of two or more
    characters. *)
Theorem load_then_lookup (self : SenseHat) (text_pixels : list pixel)
    (loaded_text : string)
    (Hmod : (length text_pixels mod 40 = 0)%nat)
    (Hlen : (length (chars_of loaded_text) <= length text_pixels / 40)%nat)
    (Hpix : Forall pixel_ok text_pixels)
    (Hq : "?"%string ∈ chars_of loaded_text) :
  let blocks := glyph_blocks (length text_pixels / 40) text_pixels in
  exists self' fallback,
    _load_text_assets text_pixels loaded_text self = (Ok tt, self')
    /\ dict_ok (_text_dict self')
    /\ _text_dict self' !! "?"%string = Some fallback
    /\ (forall k s char,
          chars_of loaded_text !! k = Some s -> blocks !! k = Some char ->
          (forall j, (k < j)%nat -> chars_of loaded_text !! j <> Some s) ->
          _get_char_pixels s self' = (Ok char, self'))
    /\ (forall s, s ∉ chars_of loaded_text ->
          _get_char_pixels s self' = (Ok fallback, self'))
    /\ (forall s, String.length s <> 1%nat ->
          _get_char_pixels s self' = (Ok fallback, self')).
Proof.
  intros blocks.
  set (chars := chars_of loaded_text) in *.
  set (d := loaded_dict 0 chars blocks ∅).
  assert (Hb : (0 + length chars <= length blocks)%nat).
  { unfold blocks. rewrite glyph_blocks_length. exact Hlen. }
  assert (Hbound : forall s, s ∉ chars -> d !! s = None).
  { intros s Hs. unfold d.
    rewrite (proj1 (loaded_dict_lookup blocks s _ 0 ∅ Hb) Hs). apply lookup_empty. }
  assert (Hbind : forall k s, chars !! k = Some s ->
                    (forall j, (k < j)%nat -> chars !! j <> Some s) ->
                    d !! s = blocks !! k).
  { intros k s Hk Hlast.
    exact (proj2 (loaded_dict_lookup blocks s _ 0 ∅ Hb) k Hk Hlast). }
  assert (Hfall : is_Some (d !! "?"%string)).
  { destruct (last_occurrence "?"%string chars Hq) as (k & Hk & Hlast).
    rewrite (Hbind k _ Hk Hlast).
    apply lookup_lt_is_Some_2. apply lookup_lt_Some in Hk. lia. }
  destruct Hfall as [fallback Hfb].
  exists (with_text_dict d self), fallback.
  split; [exact (load_text_assets_run text_pixels loaded_text self Hmod Hlen)|].
  cbn [with_text_dict _text_dict].
  assert (Hok : forall k g, d !! k = Some g -> glyph_ok g).
  { apply loaded_dict_glyphs.
    - apply glyph_blocks_ok; [|exact Hpix].
      pose proof (Nat.div_mod_eq (length text_pixels) 40). lia.
    - intros k g Hk. rewrite lookup_empty in Hk. discriminate. }
  assert (Hmiss : forall s, d !! s = None \/ String.length s <> 1%nat ->
                    _get_char_pixels s (with_text_dict d self)
                    = (Ok fallback, with_text_dict d self)).
  { intros s Hs. rewrite get_char_pixels_run. cbn [with_text_dict _text_dict].
    unfold char_pixels.
    destruct ((String.length s =? 1)%nat && bool_decide (is_Some (d !! s))) eqn:E.
    - apply andb_prop in E as [E1 E2]. apply Nat.eqb_eq in E1.
      apply bool_decide_eq_true_1 in E2. destruct Hs as [Hs|Hs]; [|contradiction].
      rewrite Hs in E2. destruct E2 as [? E2]. discriminate.
    - rewrite Hfb. reflexivity. }
  split; [split; [exists fallback; exact Hfb | exact Hok]|].
  split; [exact Hfb|]. split; [|split].
  - intros k s char Hk Hchar Hlast.
    rewrite get_char_pixels_run. cbn [with_text_dict _text_dict].
    unfold char_pixels. rewrite (Hbind k s Hk Hlast), Hchar.
    rewrite (chars_of_length1 loaded_text s)
      by (apply list_elem_of_lookup; exists k; exact Hk).
    rewrite bool_decide_eq_true_2 by (eexists; reflexivity). reflexivity.
  - intros s Hs. apply Hmiss. left. apply Hbound, Hs.
  - intros s Hs. apply Hmiss. right. exact Hs.
Qed.

Lemma load_then_lookup_witness :
  exists self' fallback,
    _load_text_assets
      (replicate 40 (0, 0, 0) ++ replicate 40 white ++ replicate 40 (8, 8, 8))
      "?AB" sample_hat = (Ok tt, self')
    /\ dict_ok (_text_dict self')
    /\ _text_dict self' !! "?"%string = Some fallback
    /\ _get_char_pixels "AB" self' = (Ok fallback, self')
    /\ _get_char_pixels "Z" self' = (Ok fallback, self').
Proof.
  destruct (load_then_lookup sample_hat
              (replicate 40 (0, 0, 0) ++ replicate 40 white ++ replicate 40 (8, 8, 8))
              "?AB")
    as (self' & fallback & Hrun & Hok & Hfb & _ & Hmiss & Hlen).
  - reflexivity.
  - cbn. lia.
  - rewrite !Forall_app. repeat split; apply Forall_replicate;
      unfold pixel_ok, chan_ok, white; lia.
  - cbn [chars_of]. left.
  - exists self', fallback.
    split; [exact Hrun|]. split; [exact Hok|]. split; [exact Hfb|]. split.
    + apply Hlen. cbn. lia.
    + apply Hmiss. cbn [chars_of].
      rewrite !not_elem_of_cons. repeat split; try discriminate.
      apply not_elem_of_nil.
Defined.

(** ** What a scroll leaves behind *)










(** ** Characters without a glyph *)

Lemma append_chars_missing self s : forall text acc,
  s ∈ text -> _text_dict self !! s = None ->
  _text_dict self !! "?"%string = None ->
  append_chars text (zeros 1 8) acc self = (Raise KeyError, self).
Proof.
  induction text as [|s0 text IH]; intros acc Hin Hs Hq.
  - apply elem_of_nil in Hin. contradiction.
  - cbn [append_chars]. unfold mbind, M_bind, bind, mret, M_ret, ret.
    rewrite get_char_pixels_run.
    destruct (char_pixels (_text_dict self) s0) as [g|] eqn:Hg.
    + apply elem_of_cons in Hin as [-> | Hin].
      * exfalso. unfold char_pixels in Hg. rewrite Hs, Hq in Hg.
        destruct ((String.length s0 =? 1)%nat && bool_decide (is_Some None));
          discriminate.
      * apply (IH _ Hin Hs Hq).
    + reflexivity.
Qed.

(** X18: when the store has no glyph for '?' and the text has a character
    without a glyph, [show_message] raises [KeyError] before anything is
    written to the device, and the rotation field is left turned;
    [show_letter] with such a character does the same. *)
Theorem text_without_glyph (self : SenseHat) (text_string s : string)
    (scroll_speed : Q) (text_colour back_colour : pixel)
    (Hq : _text_dict self !! "?"%string = None)
    (Hs : _text_dict self !! s = None) :
  (s ∈ chars_of text_string ->
   show_message text_string scroll_speed text_colour back_colour self
   = (Raise KeyError, with_rotation (left_90 (_rotation self)) self))
  /\ ((String.length s <= 1)%nat ->
      show_letter s text_colour back_colour self
      = (Raise KeyError, with_rotation (left_90 (_rotation self)) self)).
Proof.
  split.
  - intros Hin. rewrite show_message_scoped.
    unfold scoped, message_body, mbind, M_bind, bind, mret, M_ret, ret.
    rewrite (append_chars_missing _ s) by assumption. reflexivity.
  - intros Hlen. rewrite show_letter_scoped by exact Hlen.
    unfold scoped, letter_body, mbind, M_bind, bind, mret, M_ret, ret.
    rewrite get_char_pixels_run. cbn [with_rotation _text_dict].
    unfold char_pixels. rewrite Hs, Hq.
    destruct ((String.length s =? 1)%nat && bool_decide (is_Some None));
      reflexivity.
Qed.

Lemma text_without_glyph_witness :
  let self := mkSenseHat (replicate 128 0) 0 ∅ [] in
  show_message "hi" (1 # 10) white (0, 0, 0) self
  = (Raise KeyError, with_rotation 270 self).
Proof.
  intros self.
  apply (proj1 (text_without_glyph self "hi" "i" (1 # 10) white (0, 0, 0)
                  (lookup_empty _) (lookup_empty _))).
  cbn [chars_of]. right. left.
Defined.

(** ** Where [set_pixels] puts each pixel *)

Lemma pack_pixels_cell : forall (i : nat) (l : list pixel) p,
  l !! i = Some p ->
  take 2 (drop (2 * i) (mjoin (map (fun p => bytes_of_u16 (pack16 p)) l)))
  = bytes_of_u16 (pack16 p).
Proof.
  induction i as [|i IH]; intros l p Hp; destruct l as [|q l]; try discriminate.
  - inversion Hp; subst. reflexivity.
  - replace (2 * S i)%nat with (S (S (2 * i))) by lia.
    cbn [map]. rewrite mjoin_cons. cbn [bytes_of_u16 app drop].
    apply IH. exact Hp.
Qed.

Lemma turned_lookup r m :
  rotation_ok r -> shape8 m ->
  forall x y : nat, (x < 8)%nat -> (y < 8)%nat ->
  flat (turned r (r / 90) m) !! bulk_offset r x y = flat m !! (8 * y + x)%nat.
Proof.
  intros Hr Hm. pattern m. revert m Hm. apply shape8_cases. cbv beta.
  destruct Hr as [-> | [-> | [-> | ->]]]; intros; each_coord x y.
Qed.

(** X19: at a supported rotation, [set_pixels] of 64 valid pixels stores
    the pixel of column x and row y as its two bytes in device cell
    x + 8*y at 0 degrees, 56 - 8*x + y at 90, 63 - x - 8*y at 180 and
    7 + 8*x - y at 270. *)
Theorem set_pixels_layout (self : SenseHat) (a : list pixel)
    (Hrot : rotation_ok (_rotation self))
    (Hlen : length a = 64%nat) (Hok : Forall pixel_ok a)
    (Hmem : length (fb_mem self) = 128%nat) :
  exists self',
    set_pixels a self = (Ok tt, self')
    /\ forall (x y : nat) p, (x < 8)%nat -> (y < 8)%nat ->
         a !! (8 * y + x)%nat = Some p ->
         take 2 (drop (2 * bulk_offset (_rotation self) x y) (fb_mem self'))
         = encode p.
Proof.
  pose proof (set_pixels_ok a self Hlen Hok Hmem) as Hset. cbv zeta in Hset.
  eexists. split; [exact Hset|].
  intros x y p Hx Hy Hp. cbn [fb_mem].
  rewrite pack_bin_flat.
  rewrite (pack_pixels_cell _ _ p).
  - unfold encode, _pack_bin. cbn [map mjoin list_join app].
    rewrite app_nil_r. reflexivity.
  - rewrite (turned_lookup _ _ Hrot (rows_of_shape8 a Hlen) x y Hx Hy).
    rewrite (flat_rows_of_64 a Hlen). exact Hp.
Qed.

Lemma set_pixels_layout_witness :
  let self := with_rotation 90 sample_hat in
  let a := replicate 63 (0, 0, 0) ++ [white] in
  exists self',
    set_pixels a self = (Ok tt, self')
    /\ take 2 (drop (2 * bulk_offset 90 7 7) (fb_mem self')) = encode white.
Proof.
  intros self a.
  destruct (set_pixels_layout self a) as (self' & Hrun & Hcell).
  - right; left. reflexivity.
  - reflexivity.
  - apply Forall_app. split.
    + apply Forall_replicate. unfold pixel_ok, chan_ok. lia.
    + apply Forall_cons_2; [unfold pixel_ok, chan_ok, white; lia | apply Forall_nil_2].
  - reflexivity.
  - exists self'. split; [exact Hrun|].
    apply (Hcell 7%nat 7%nat white); [lia | lia | reflexivity].
Defined.

(** ** Both flips *)

Lemma flip_both_reverse m :
  shape8 m ->
  flat (flipud (fliplr m)) = reverse (flat m)
  /\ flat (fliplr (flipud m)) = reverse (flat m).
Proof.
  intros Hm. pattern m. revert m Hm. apply shape8_cases. cbv beta.
  intros. split; reflexivity.
Qed.

(** X4: on the 128-byte device at a supported rotation, [flip_h] followed
    by [flip_v], and [flip_v] followed by [flip_h], both with redraw, return
    and show the same picture: the earlier 64 pixels in reverse order (the
    picture turned by half a turn). *)
Theorem flip_both_half_turn (self : SenseHat)
    (Hrot : rotation_ok (_rotation self))
    (Hmem : length (fb_mem self) = 128%nat)
    (Hbytes : Forall chan_ok (fb_mem self)) :
  exists px h hv v vh,
    get_pixels self = (Ok px, self)
    /\ flip_h true self = (Ok (flat (fliplr (rows_of 8 8 px))), h)
    /\ flip_v true h = (Ok (reverse px), hv)
    /\ get_pixels hv = (Ok (reverse px), hv)
    /\ flip_v true self = (Ok (flat (flipud (rows_of 8 8 px))), v)
    /\ flip_h true v = (Ok (reverse px), vh)
    /\ get_pixels vh = (Ok (reverse px), vh).
Proof.
  destruct (get_pixels_run self Hmem Hbytes) as (px & Hget & Hlen & Hdev).
  pose proof (rows_of_shape8 px Hlen) as Hs.
  pose proof (Forall_rows_of on_device 8 8 px Hdev) as Hd.
  destruct (flip_both_reverse _ Hs) as [Ehv Evh].
  rewrite (flat_rows_of_64 px Hlen) in Ehv, Evh.
  set (mh := fliplr (rows_of 8 8 px)).
  set (mv := flipud (rows_of 8 8 px)).
  assert (Hsh : shape8 mh) by (apply fliplr_shape8, Hs).
  assert (Hsv : shape8 mv) by (apply flipud_shape8, Hs).
  assert (Hdh : Forall (Forall on_device) mh) by (apply fliplr_Forall, Hd).
  assert (Hdv : Forall (Forall on_device) mv) by (apply flipud_Forall, Hd).
  set (h := hat_showing self mh).
  set (v := hat_showing self mv).
  assert (Hgh : get_pixels h = (Ok (flat mh), h))
    by (apply get_pixels_showing; assumption).
  assert (Hgv : get_pixels v = (Ok (flat mv), v))
    by (apply get_pixels_showing; assumption).
  pose proof (flip_run flipud true h (flat mh) Hgh (flat_length mh Hsh)
                (Forall_flat _ _ Hdh) flipud_shape8 (flipud_Forall on_device)
                (frame_bytes_length _ _ Hsh)) as Hhv.
  pose proof (flip_run fliplr true v (flat mv) Hgv (flat_length mv Hsv)
                (Forall_flat _ _ Hdv) fliplr_shape8 (fliplr_Forall on_device)
                (frame_bytes_length _ _ Hsv)) as Hvh.
  rewrite (rows_of_flat mh Hsh) in Hhv. rewrite (rows_of_flat mv Hsv) in Hvh.
  fold mh in Ehv. fold mv in Evh. rewrite Ehv in Hhv. rewrite Evh in Hvh.
  exists px, h, (hat_showing h (flipud mh)), v, (hat_showing v (fliplr mv)).
  split; [exact Hget|]. split.
  { exact (flip_run fliplr true self px Hget Hlen Hdev fliplr_shape8
             (fliplr_Forall on_device) Hmem). }
  split; [exact Hhv|]. split.
  { rewrite get_pixels_showing;
      [rewrite Ehv; reflexivity | exact Hrot | apply flipud_shape8, Hsh
      | apply flipud_Forall, Hdh]. }
  split.
  { exact (flip_run flipud true self px Hget Hlen Hdev flipud_shape8
             (flipud_Forall on_device) Hmem). }
  split; [exact Hvh|].
  rewrite get_pixels_showing;
    [rewrite Evh; reflexivity | exact Hrot | apply fliplr_shape8, Hsv
    | apply fliplr_Forall, Hdv].
Qed.

Lemma flip_both_half_turn_witness :
  let self := mkSenseHat (replicate 128 51) 270 ∅ [] in
  exists px h hv v vh,
    get_pixels self = (Ok px, self)
    /\ flip_h true self = (Ok (flat (fliplr (rows_of 8 8 px))), h)
    /\ flip_v true h = (Ok (reverse px), hv)
    /\ get_pixels hv = (Ok (reverse px), hv)
    /\ flip_v true self = (Ok (flat (flipud (rows_of 8 8 px))), v)
    /\ flip_h true v = (Ok (reverse px), vh)
    /\ get_pixels vh = (Ok (reverse px), vh).
Proof.
  intros self. apply (flip_both_half_turn self).
  - right; right; right. reflexivity.
  - reflexivity.
  - apply Forall_replicate. unfold chan_ok. lia.
Defined.
